(** * Disk head scheduling (streamlitapp.py): a shallow embedding

    The six seek-sequence generators [fcfs], [sstf], [scan], [cscan],
    [look], [clook], the explanation builder [get_seek_explanation] and
    the dispatcher [get_result] of [src/streamlitapp.py], with the
    Python built-ins they call.  Python integers are unbounded, so
    cylinders are [Z]; Python lists are [list Z].  Of [plot_and_save]
    and of the blocks of the two buttons, the data they compute and the
    files they write and remove; rendering and the parsing of the text
    field are left out. *)

From Stdlib Require Import ZArith String Ascii DecimalString.
From Stdlib Require Import List Bool Lia Permutation Sorted.
From Stdlib Require DecimalPos DecimalZ.
Import ListNotations.
Open Scope Z_scope.

(** ** Python built-ins used by the program *)

Module Py.

(** Outcome of running a piece of Python: a value, a raised exception,
    or a loop that was cut because the iteration budget ran out. *)
Inductive exn : Type := ValueError.

Inductive res (A : Type) : Type :=
| Ok (a : A)
| Raise (e : exn)
| OutOfFuel.

Arguments Ok {A} a.
Arguments Raise {A} e.
Arguments OutOfFuel {A}.

Definition bind {A B : Type} (m : res A) (k : A -> res B) : res B :=
  match m with
  | Ok a => k a
  | Raise e => Raise e
  | OutOfFuel => OutOfFuel
  end.

(** [range(n)] for a natural [n]; [len(l) - 1] of the empty list is
    [-1] in Python and [range(-1)] is empty, as is [seq 0 (0 - 1)]. *)
Definition range (n : nat) : list nat := seq 0 n.

(** [l[i]] for [0 <= i]; the program only indexes below [len(l)], so
    the default is never returned (see [range_in_bounds]). *)
Definition item (l : list Z) (i : nat) : Z := nth i l 0.

(** [sum(xs)]: left to right, starting from [0]. *)
Definition sum (xs : list Z) : Z := fold_left Z.add xs 0.

(** [min(l, key=key)]: the first element whose key is strictly below
    the key of the best one so far replaces it; [ValueError] on []. *)
Fixpoint min_from (key : Z -> Z) (best : Z) (l : list Z) : Z :=
  match l with
  | [] => best
  | x :: l' =>
      if key x <? key best then min_from key x l' else min_from key best l'
  end.

Definition min (l : list Z) (key : Z -> Z) : res Z :=
  match l with
  | [] => Raise ValueError
  | x :: l' => Ok (min_from key x l')
  end.

(** [l.remove(x)]: drops the first item equal to [x]; [ValueError]
    when there is none. *)
Fixpoint remove (l : list Z) (x : Z) : res (list Z) :=
  match l with
  | [] => Raise ValueError
  | y :: l' =>
      if y =? x then Ok l'
      else bind (remove l' x) (fun r => Ok (y :: r))
  end.

(** [sorted(l, reverse=b)]: a stable sort, ascending, or descending
    when [reverse] is set (equal items keep their order either way). *)
Fixpoint insert (le : Z -> Z -> bool) (x : Z) (l : list Z) : list Z :=
  match l with
  | [] => [x]
  | y :: l' => if le x y then x :: l else y :: insert le x l'
  end.

Definition sorted (l : list Z) (reverse : bool) : list Z :=
  fold_right (insert (if reverse then Z.geb else Z.leb)) [] l.

(** [str(z)] and [sep.join(lines)]. *)
Definition str (z : Z) : string := NilZero.string_of_int (Z.to_int z).

Definition nl : string := String (ascii_of_nat 10) EmptyString.

Fixpoint join (sep : string) (lines : list string) : string :=
  match lines with
  | [] => EmptyString
  | [s] => s
  | s :: rest => (s ++ sep ++ join sep rest)%string
  end.

End Py.

Import Py.

Notation "x <- m ;; k" := (bind m (fun x => k))
  (at level 61, m at next level, right associativity).

(** ** The scheduling algorithms *)

(** The expression every generator but [sstf] ends with:
    [sum(abs(s[i] - s[i + 1]) for i in range(len(s) - 1))]. *)
Definition seek_sum (seek_sequence : list Z) : Z :=
  sum (map (fun i => Z.abs (item seek_sequence i - item seek_sequence (i + 1)))
           (range (length seek_sequence - 1))).

Definition fcfs (requests : list Z) (head : Z) : list Z * Z :=
  let seek_sequence := [head] ++ requests in
  let total_seek := seek_sum seek_sequence in
  (seek_sequence, total_seek).

(** [sstf]: the variables of the [while] loop. *)
Record sstf_state : Type := mk_sstf {
  st_requests : list Z;
  st_head : Z;
  st_seek_sequence : list Z;
  st_total_seek : Z
}.

(** One execution of the loop body (lines 20-24). *)
Definition sstf_body (s : sstf_state) : res sstf_state :=
  let head := st_head s in
  closest <- Py.min (st_requests s) (fun x => Z.abs (x - head)) ;;
  let total_seek := st_total_seek s + Z.abs (head - closest) in
  let seek_sequence := st_seek_sequence s ++ [closest] in
  requests <- remove (st_requests s) closest ;;
  Ok (mk_sstf requests closest seek_sequence total_seek).

(** [while requests: body], with a budget of [fuel] body executions. *)
Fixpoint sstf_while (fuel : nat) (s : sstf_state) : res sstf_state :=
  match st_requests s with
  | [] => Ok s
  | _ :: _ =>
      match fuel with
      | O => OutOfFuel
      | S fuel' => s' <- sstf_body s ;; sstf_while fuel' s'
      end
  end.

(** The state before the first test of the loop.  [requests[:]] copies
    the argument, so the list the loop shrinks is the loop's own. *)
Definition sstf_init (requests : list Z) (head : Z) : sstf_state :=
  mk_sstf requests head [head] 0.

Definition sstf_fuel (fuel : nat) (requests : list Z) (head : Z)
  : res (list Z * Z) :=
  s <- sstf_while fuel (sstf_init requests head) ;;
  Ok (st_seek_sequence s, st_total_seek s).

(** The budget [len(requests)] is enough and no smaller one is; a
    larger one changes nothing ([sstf_returns], [sstf_while_short]). *)
Definition sstf (requests : list Z) (head : Z) : res (list Z * Z) :=
  sstf_fuel (length requests) requests head.

Definition scan (requests : list Z) (head : Z) (max_cylinder : Z)
  : list Z * Z :=
  let left := sorted (filter (fun r => r <? head) requests) true in
  let right := sorted (filter (fun r => r >=? head) requests) false in
  let seek_sequence := [head] ++ right ++ [max_cylinder - 1] ++ left in
  let total_seek := seek_sum seek_sequence in
  (seek_sequence, total_seek).

Definition cscan (requests : list Z) (head : Z) (max_cylinder : Z)
  : list Z * Z :=
  let left := sorted (filter (fun r => r <? head) requests) false in
  let right := sorted (filter (fun r => r >=? head) requests) false in
  let seek_sequence := [head] ++ right ++ [max_cylinder - 1; 0] ++ left in
  let total_seek := seek_sum seek_sequence in
  (seek_sequence, total_seek).

Definition look (requests : list Z) (head : Z) : list Z * Z :=
  let left := sorted (filter (fun r => r <? head) requests) true in
  let right := sorted (filter (fun r => r >=? head) requests) false in
  let seek_sequence := [head] ++ right ++ left in
  let total_seek := seek_sum seek_sequence in
  (seek_sequence, total_seek).

Definition clook (requests : list Z) (head : Z) : list Z * Z :=
  let left := sorted (filter (fun r => r <? head) requests) false in
  let right := sorted (filter (fun r => r >=? head) requests) false in
  let seek_sequence := [head] ++ right ++ left in
  let total_seek := seek_sum seek_sequence in
  (seek_sequence, total_seek).

(** The default of [scan] and [cscan]: [max_cylinder=200]. *)
Definition default_max_cylinder : Z := 200.

(** ** The explanation generator *)

(** The f-string of line 62 for the step from [path[i]] to [path[i+1]]. *)
Definition step_line (path : list Z) (i : nat) (diff : Z) : string :=
  ("|" ++ str (item path (i + 1)) ++ " - " ++ str (item path i)
       ++ "| = " ++ str diff)%string.

(** The [for] loop of lines 59-62 on its two variables
    [(explanation, total)]. *)
Definition explanation_loop (path : list Z) : list string * Z :=
  fold_left
    (fun (acc : list string * Z) (i : nat) =>
       let '(explanation, total) := acc in
       let diff := Z.abs (item path (i + 1) - item path i) in
       (explanation ++ [step_line path i diff], total + diff))
    (range (length path - 1))
    ([], 0).

Definition get_seek_explanation (path : list Z) : string :=
  let '(explanation, total) := explanation_loop path in
  let explanation_text := join nl explanation in
  ("Steps:" ++ nl ++ explanation_text ++ nl ++ nl
            ++ "Total Seek Time = " ++ str total)%string.

(** ** The dispatcher *)

(** The options of the three select boxes (lines 72-74). *)
Definition algorithms : list string :=
  ["FCFS"; "SSTF"; "SCAN"; "CSCAN"; "LOOK"; "CLOOK"]%string.

(** [get_result]: an [if]/[elif] chain without [else]; falling off the
    end of a Python function returns [None], here [Ok None]. *)
Definition get_result (algo : string) (queue : list Z) (head : Z)
  : res (option (list Z * Z)) :=
  if (algo =? "FCFS")%string then Ok (Some (fcfs queue head))
  else if (algo =? "SSTF")%string then
    r <- sstf queue head ;; Ok (Some r)
  else if (algo =? "SCAN")%string then
    Ok (Some (scan queue head default_max_cylinder))
  else if (algo =? "CSCAN")%string then
    Ok (Some (cscan queue head default_max_cylinder))
  else if (algo =? "LOOK")%string then Ok (Some (look queue head))
  else if (algo =? "CLOOK")%string then Ok (Some (clook queue head))
  else Ok None.

(** ** Notions used to state the properties *)

(** Cost of a path, pair by pair: [|a - b|] for each two neighbours. *)
Fixpoint steps_cost (path : list Z) : Z :=
  match path with
  | a :: (b :: _) as rest => Z.abs (a - b) + steps_cost rest
  | _ => 0
  end.

(** The differences the explanation loop records, one per step: the
    value bound to [diff] at iteration [i]. *)
Definition recorded_diffs (path : list Z) : list Z :=
  map (fun i => Z.abs (item path (i + 1) - item path i))
      (range (length path - 1)).

(** Distance of cylinder [x] from the head: the key [sstf] gives [min]. *)
Definition dist (head x : Z) : Z := Z.abs (x - head).

(** The visits of a seek sequence: what follows the head, [s[1:]]. *)
Definition visits (seek_sequence : list Z) : list Z := tl seek_sequence.

(** The two groups of the sweeping policies: the requests at or above
    the head, and those below it, in queue order. *)
Definition at_or_above (head : Z) (requests : list Z) : list Z :=
  filter (fun r => head <=? r) requests.

Definition below (head : Z) (requests : list Z) : list Z :=
  filter (fun r => negb (head <=? r)) requests.

(** Reading the explanation back.  [strip_prefix p s] is what follows
    [p] in [s], when [s] starts with [p]; [read_int] reads a decimal
    number, the inverse of [str]. *)
Fixpoint strip_prefix (prefix s : string) : option string :=
  match prefix with
  | EmptyString => Some s
  | String c prefix' =>
      match s with
      | EmptyString => None
      | String d s' =>
          if Ascii.eqb c d then strip_prefix prefix' s' else None
      end
  end.

Definition read_int (s : string) : option Z :=
  option_map Z.of_int (NilZero.int_of_string s).

(** The difference a recorded line shows for step [i] of [path]: the
    line must read "|b - a| = " for [a = path[i]] and [b = path[i + 1]],
    and what follows is the number read. *)
Definition read_step (path : list Z) (i : nat) (line : string) : option Z :=
  match strip_prefix ("|" ++ str (item path (i + 1)) ++ " - "
                          ++ str (item path i) ++ "| = ")%string line with
  | Some shown => read_int shown
  | None => None
  end.

(** The differences read off the recorded lines, the first line being
    that of step [i]. *)
Fixpoint read_steps (path : list Z) (i : nat) (lines : list string)
  : list (option Z) :=
  match lines with
  | [] => []
  | line :: rest => read_step path i line :: read_steps path (S i) rest
  end.

(** Their sum, when every line could be read. *)
Fixpoint sum_read (shown : list (option Z)) : option Z :=
  match shown with
  | [] => Some 0
  | Some d :: rest => option_map (Z.add d) (sum_read rest)
  | None :: _ => None
  end.

(** The total a text of [get_seek_explanation] shows under the given
    lines: the number after "Total Seek Time = ". *)
Definition read_total (lines : list string) (text : string) : option Z :=
  match strip_prefix ("Steps:" ++ nl ++ join nl lines ++ nl ++ nl
                               ++ "Total Seek Time = ")%string text with
  | Some shown => read_int shown
  | None => None
  end.

(** A result [(sequence, total)] agrees with the explanation built from
    its sequence: the loop's running total, the sum of the recorded
    differences and the total printed on the last line are all [total];
    the loop has recorded one line per step, the differences read off
    those lines add up to [total], and [total] is the number read off
    the end of the text. *)
Definition totals_agree (r : list Z * Z) : Prop :=
  snd (explanation_loop (fst r)) = snd r
  /\ sum (recorded_diffs (fst r)) = snd r
  /\ get_seek_explanation (fst r)
     = ("Steps:" ++ nl ++ join nl (fst (explanation_loop (fst r)))
                 ++ nl ++ nl ++ "Total Seek Time = " ++ str (snd r))%string
  /\ length (fst (explanation_loop (fst r))) = (length (fst r) - 1)%nat
  /\ sum_read (read_steps (fst r) 0 (fst (explanation_loop (fst r))))
     = Some (snd r)
  /\ read_total (fst (explanation_loop (fst r)))
                (get_seek_explanation (fst r))
     = Some (snd r).

(** The highest and the lowest cylinder among the head and the queue. *)
Definition highest (head : Z) (requests : list Z) : Z :=
  fold_right Z.max head requests.

Definition lowest (head : Z) (requests : list Z) : Z :=
  fold_right Z.min head requests.

(** A total is enough to reach every request from the head: it is not
    negative and not below the distance from the head to any request. *)
Definition reaches_all (head : Z) (requests : list Z) (total : Z) : Prop :=
  0 <= total /\ Forall (fun r => Z.abs (head - r) <= total) requests.

(** A cylinder of a disk with [max_cylinder] cylinders. *)
Definition on_disk (max_cylinder c : Z) : Prop := 0 <= c < max_cylinder.

(** ** The plot and the two buttons *)

(** [max(l)]: an item strictly above the best so far replaces it;
    [ValueError] on []. *)
Fixpoint max_from (best : Z) (l : list Z) : Z :=
  match l with
  | [] => best
  | x :: l' => if x >? best then max_from x l' else max_from best l'
  end.

Definition py_max (l : list Z) : res Z :=
  match l with
  | [] => Raise ValueError
  | x :: l' => Ok (max_from x l')
  end.

(** The arguments [plot_and_save] gives [set_xlim] and [set_ylim]
    (lines 96-97): [(-1, len(path) + 1)] and
    [(min(path) - 10, max(path) + 10)]. *)
Definition plot_limits (path : list Z) : res ((Z * Z) * (Z * Z)) :=
  let xlim := (-1, Z.of_nat (length path) + 1) in
  lo <- Py.min path (fun x => x) ;;
  hi <- py_max path ;;
  Ok (xlim, (lo - 10, hi + 10)).

(** The frames of the animation, [frames=len(path)], and the data
    [animate(i)] gives the line: [range(i + 1)] against [path[:i + 1]]
    (lines 107-111). *)
Definition frames (path : list Z) : list nat := range (length path).

Definition animate (path : list Z) (i : nat) : list nat * list Z :=
  (range (i + 1), firstn (i + 1) path).

(** [f"{algo}_animation.gif"] (line 112). *)
Definition gif_name (algo : string) : string :=
  (algo ++ "_animation.gif")%string.

(** What running a button's block can end in: the block ran to its end,
    an exception was raised, or the budget of a loop ran out. *)
Inductive ui_exn : Type :=
| Core (e : exn)
| TypeError
| FileNotFoundError.

Inductive ui_res (A : Type) : Type :=
| Shown (a : A)
| Failed (e : ui_exn)
| Cut.

Arguments Shown {A} a.
Arguments Failed {A} e.
Arguments Cut {A}.

Definition ui_bind {A B : Type} (m : ui_res A) (k : A -> ui_res B)
  : ui_res B :=
  match m with
  | Shown a => k a
  | Failed e => Failed e
  | Cut => Cut
  end.

Definition lift {A : Type} (m : res A) : ui_res A :=
  match m with
  | Ok a => Shown a
  | Raise e => Failed (Core e)
  | OutOfFuel => Cut
  end.

Notation "x <~ m ;; k" := (ui_bind m (fun x => k))
  (at level 61, m at next level, right associativity).

(** [path, total_seek = get_result(...)]: unpacking [None] raises
    [TypeError]. *)
Definition unpack (v : option (list Z * Z)) : ui_res (list Z * Z) :=
  match v with
  | Some r => Shown r
  | None => Failed TypeError
  end.

(** The files of the working directory: which names exist. *)
Definition files : Type := string -> bool.

(** [ani.save(gif_path, ...)] writes the file, new or over an old one.
    The names are those of files of the working directory, as the six
    algorithm names give; a name with a directory part is not one. *)
Definition write_file (name : string) (fs : files) : files :=
  fun q => if (q =? name)%string then true else fs q.

(** [open(name, "rb")] needs the file to exist. *)
Definition open_rb (name : string) (fs : files) : ui_res unit :=
  if fs name then Shown tt else Failed FileNotFoundError.

(** [os.remove(name)]: [FileNotFoundError] when there is no such file. *)
Definition os_remove (name : string) (fs : files) : ui_res files :=
  if fs name
  then Shown (fun q => if (q =? name)%string then false else fs q)
  else Failed FileNotFoundError.

(** [plot_and_save]: the limits are computed (which needs a non-empty
    path), the animation is saved, the name of the file is returned. *)
Definition plot_and_save (path : list Z) (algo : string) (fs : files)
  : ui_res (string * files) :=
  _ <~ lift (plot_limits path) ;;
  let gif_path := gif_name algo in
  Shown (gif_path, write_file gif_path fs).

(** The block of the Simulate button (lines 117-128) from the parsed
    queue on: the total shown, the explanation shown, the files left. *)
Definition simulate_block (algo : string) (queue : list Z) (head : Z)
           (fs : files) : ui_res (Z * string * files) :=
  v <~ lift (get_result algo queue head) ;;
  r <~ unpack v ;;
  let path := fst r in
  let total_seek := snd r in
  g <~ plot_and_save path algo fs ;;
  let gif := fst g in
  _ <~ open_rb gif (snd g) ;;
  fs' <~ os_remove gif (snd g) ;;
  Shown (total_seek, get_seek_explanation path, fs').

(** The block of the Compare button (lines 131-158) from the parsed
    queue on: per column the total and the explanation, and the files
    left. *)
Definition compare_block (algo1 algo2 : string) (queue : list Z) (head : Z)
           (fs : files)
  : ui_res ((Z * string) * (Z * string) * files) :=
  v1 <~ lift (get_result algo1 queue head) ;;
  r1 <~ unpack v1 ;;
  v2 <~ lift (get_result algo2 queue head) ;;
  r2 <~ unpack v2 ;;
  g1 <~ plot_and_save (fst r1) algo1 fs ;;
  g2 <~ plot_and_save (fst r2) algo2 (snd g1) ;;
  let gif1 := fst g1 in
  let gif2 := fst g2 in
  _ <~ open_rb gif1 (snd g2) ;;
  _ <~ open_rb gif2 (snd g2) ;;
  fs1 <~ os_remove gif1 (snd g2) ;;
  fs2 <~ os_remove gif2 fs1 ;;
  Shown ((snd r1, get_seek_explanation (fst r1)),
         (snd r2, get_seek_explanation (fst r2)), fs2).

(** ** Checks on the running example of the user interface *)

Definition example_queue : list Z := [98; 183; 37; 122; 14; 124; 65; 67].

Example get_result_sstf_example :
  get_result "SSTF" example_queue 53
  = Ok (Some ([53; 65; 67; 37; 14; 98; 122; 124; 183], 236)).
Proof. reflexivity. Qed.

Example get_result_scan_example :
  get_result "SCAN" example_queue 53
  = Ok (Some ([53; 65; 67; 98; 122; 124; 183; 199; 37; 14], 331)).
Proof. reflexivity. Qed.

Example get_seek_explanation_example :
  get_seek_explanation [53; 98; 37]
  = ("Steps:" ++ nl ++ "|98 - 53| = 45" ++ nl ++ "|37 - 98| = 61"
              ++ nl ++ nl ++ "Total Seek Time = 106")%string.
Proof. reflexivity. Qed.

(** ** Sums and path costs *)

Section Sums.

Lemma fold_add_acc (xs : list Z) (a : Z) :
  fold_left Z.add xs a = a + fold_left Z.add xs 0.
Proof.
  revert a; induction xs as [| x xs IH]; intros a; simpl.
  - lia.
  - rewrite (IH (a + x)), (IH x). lia.
Qed.

Lemma sum_cons (x : Z) (xs : list Z) : sum (x :: xs) = x + sum xs.
Proof. unfold sum; simpl. apply fold_add_acc. Qed.

Lemma sum_app (xs ys : list Z) : sum (xs ++ ys) = sum xs + sum ys.
Proof.
  induction xs as [| x xs IH]; simpl.
  - reflexivity.
  - rewrite !sum_cons, IH. lia.
Qed.

(** Every index the generators and the explanation loop read is in
    bounds: no [IndexError] can occur. *)
Lemma range_in_bounds (l : list Z) (i : nat) :
  In i (range (length l - 1)) -> (i + 1 < length l)%nat.
Proof. unfold range; rewrite in_seq. lia. Qed.

Lemma seek_sum_cons2 (a b : Z) (l : list Z) :
  seek_sum (a :: b :: l) = Z.abs (a - b) + seek_sum (b :: l).
Proof.
  unfold seek_sum, range.
  change (length (a :: b :: l) - 1)%nat with (S (length l)).
  change (length (b :: l) - 1)%nat with (length l - 0)%nat.
  rewrite Nat.sub_0_r.
  cbn [seq map]. rewrite sum_cons. f_equal.
  rewrite <- seq_shift, map_map. reflexivity.
Qed.

Lemma seek_sum_steps (path : list Z) : seek_sum path = steps_cost path.
Proof.
  induction path as [| a [| b l] IH]; try reflexivity.
  rewrite seek_sum_cons2, IH. reflexivity.
Qed.

Lemma steps_cost_nonneg (path : list Z) : 0 <= steps_cost path.
Proof.
  induction path as [| a [| b l] IH]; try (simpl; lia).
  change (steps_cost (a :: b :: l)) with (Z.abs (a - b) + steps_cost (b :: l)).
  lia.
Qed.

Lemma recorded_diffs_sum (path : list Z) :
  sum (recorded_diffs path) = steps_cost path.
Proof.
  rewrite <- seek_sum_steps. unfold recorded_diffs, seek_sum.
  f_equal. apply map_ext; intros i. lia.
Qed.

End Sums.

(** ** The explanation loop *)

Section Explanation.

Variable path : list Z.

Let diff_at (i : nat) : Z := Z.abs (item path (i + 1) - item path i).

Let body (acc : list string * Z) (i : nat) : list string * Z :=
  let '(explanation, total) := acc in
  (explanation ++ [step_line path i (diff_at i)], total + diff_at i).

Lemma explanation_fold (indices : list nat) (lines : list string) (t : Z) :
  fold_left body indices (lines, t)
  = (lines ++ map (fun i => step_line path i (diff_at i)) indices,
     t + sum (map diff_at indices)).
Proof.
  revert lines t; induction indices as [| i indices IH]; intros lines t.
  - simpl. rewrite app_nil_r. f_equal. unfold sum; simpl; lia.
  - cbn [fold_left map]. unfold body at 2. rewrite IH.
    rewrite <- app_assoc, sum_cons. f_equal. lia.
Qed.

Lemma explanation_loop_eq :
  explanation_loop path
  = (map (fun i => step_line path i (diff_at i)) (range (length path - 1)),
     sum (recorded_diffs path)).
Proof.
  unfold explanation_loop.
  change (fold_left body (range (length path - 1)) ([], 0)
          = (map (fun i => step_line path i (diff_at i))
                 (range (length path - 1)),
             sum (recorded_diffs path))).
  rewrite explanation_fold. reflexivity.
Qed.

End Explanation.

Lemma explanation_total (path : list Z) :
  snd (explanation_loop path) = steps_cost path.
Proof. rewrite explanation_loop_eq. apply recorded_diffs_sum. Qed.

Lemma explanation_lines_length (path : list Z) :
  length (fst (explanation_loop path)) = length (recorded_diffs path).
Proof.
  rewrite explanation_loop_eq. unfold recorded_diffs.
  cbn [fst]. rewrite !length_map. reflexivity.
Qed.

Lemma get_seek_explanation_total (path : list Z) :
  get_seek_explanation path
  = ("Steps:" ++ nl ++ join nl (fst (explanation_loop path)) ++ nl ++ nl
              ++ "Total Seek Time = " ++ str (steps_cost path))%string.
Proof.
  unfold get_seek_explanation. rewrite <- explanation_total.
  destruct (explanation_loop path) as [explanation total]. reflexivity.
Qed.

(** ** [sorted] sorts *)

Section Sorting.

Lemma insert_perm (le : Z -> Z -> bool) (x : Z) (l : list Z) :
  Permutation (insert le x l) (x :: l).
Proof.
  induction l as [| y l IH]; simpl.
  - apply Permutation_refl.
  - destruct (le x y).
    + apply Permutation_refl.
    + rewrite IH. apply perm_swap.
Qed.

Lemma sorted_perm (l : list Z) (reverse : bool) :
  Permutation (sorted l reverse) l.
Proof.
  unfold sorted. induction l as [| x l IH]; simpl.
  - apply Permutation_refl.
  - rewrite insert_perm. apply perm_skip, IH.
Qed.

Lemma sorted_length (l : list Z) (reverse : bool) :
  length (sorted l reverse) = length l.
Proof. apply Permutation_length, sorted_perm. Qed.

Lemma sorted_In (l : list Z) (reverse : bool) (x : Z) :
  In x (sorted l reverse) <-> In x l.
Proof.
  split; apply Permutation_in;
    [apply sorted_perm | apply Permutation_sym, sorted_perm].
Qed.

Lemma insert_leb_sorted (x : Z) (l : list Z) :
  StronglySorted Z.le l -> StronglySorted Z.le (insert Z.leb x l).
Proof.
  induction 1 as [| y l Hs IH Hall]; simpl.
  - repeat constructor.
  - destruct (Z.leb_spec x y) as [Hxy | Hxy].
    + constructor; [constructor; assumption |].
      constructor; [assumption |].
      eapply Forall_impl; [| exact Hall]. intros z Hz; simpl in Hz; lia.
    + constructor; [assumption |].
      rewrite Forall_forall in *. intros z Hz.
      apply (Permutation_in _ (insert_perm Z.leb x l)) in Hz.
      destruct Hz as [<- | Hz]; [lia | auto].
Qed.

Lemma insert_geb_sorted (x : Z) (l : list Z) :
  StronglySorted Z.ge l -> StronglySorted Z.ge (insert Z.geb x l).
Proof.
  induction 1 as [| y l Hs IH Hall]; simpl.
  - repeat constructor.
  - rewrite Z.geb_leb. destruct (Z.leb_spec y x) as [Hxy | Hxy].
    + constructor; [constructor; assumption |].
      constructor; [lia |].
      eapply Forall_impl; [| exact Hall]. intros z Hz; simpl in Hz; lia.
    + constructor; [assumption |].
      rewrite Forall_forall in *. intros z Hz.
      apply (Permutation_in _ (insert_perm Z.geb x l)) in Hz.
      destruct Hz as [<- | Hz]; [lia | auto].
Qed.

Lemma sorted_ascending (l : list Z) : StronglySorted Z.le (sorted l false).
Proof.
  unfold sorted. induction l as [| x l IH]; simpl.
  - constructor.
  - apply insert_leb_sorted, IH.
Qed.

Lemma sorted_descending (l : list Z) : StronglySorted Z.ge (sorted l true).
Proof.
  unfold sorted. induction l as [| x l IH]; simpl.
  - constructor.
  - apply insert_geb_sorted, IH.
Qed.

(** A list has one ascending arrangement. *)
Lemma ascending_unique (l1 l2 : list Z) :
  StronglySorted Z.le l1 -> StronglySorted Z.le l2 ->
  Permutation l1 l2 -> l1 = l2.
Proof.
  intros H1; revert l2.
  induction H1 as [| a l1 Hs1 IH Ha]; intros l2 H2 Hp.
  - apply Permutation_nil in Hp. subst; reflexivity.
  - destruct H2 as [| b l2 Hs2 Hb].
    + apply Permutation_sym, Permutation_nil in Hp. discriminate.
    + assert (a = b) as ->.
      { rewrite Forall_forall in Ha, Hb.
        assert (In a (b :: l2)) as Hin1
            by (eapply Permutation_in; [exact Hp | left; reflexivity]).
        assert (In b (a :: l1)) as Hin2
            by (eapply Permutation_in;
                [apply Permutation_sym; exact Hp | left; reflexivity]).
        destruct Hin1 as [-> | Hin1]; [reflexivity |].
        destruct Hin2 as [-> | Hin2]; [reflexivity |].
        specialize (Ha _ Hin2). specialize (Hb _ Hin1). lia. }
      f_equal. apply IH; [assumption |].
      eapply Permutation_cons_inv; exact Hp.
Qed.

Lemma StronglySorted_snoc (R : Z -> Z -> Prop) (l : list Z) (x : Z) :
  StronglySorted R l -> Forall (fun y => R y x) l ->
  StronglySorted R (l ++ [x]).
Proof.
  induction 1 as [| a l Hs IH Ha]; intros Hall; simpl.
  - repeat constructor.
  - inversion Hall as [| ? ? Hax Hall']; subst.
    constructor; [apply IH; assumption |].
    apply Forall_app; split; [assumption | repeat constructor; assumption].
Qed.

Lemma StronglySorted_rev (R R' : Z -> Z -> Prop) (l : list Z) :
  (forall x y, R x y -> R' y x) ->
  StronglySorted R l -> StronglySorted R' (rev l).
Proof.
  intros Hflip. induction 1 as [| a l Hs IH Ha]; simpl.
  - constructor.
  - apply StronglySorted_snoc; [assumption |].
    rewrite Forall_forall in *. intros y Hy.
    apply in_rev in Hy. apply Hflip, Ha, Hy.
Qed.

Lemma descending_rev (l : list Z) :
  StronglySorted Z.ge l -> StronglySorted Z.le (rev l).
Proof. apply StronglySorted_rev. intros x y; lia. Qed.

Lemma ascending_rev (l : list Z) :
  StronglySorted Z.le l -> StronglySorted Z.ge (rev l).
Proof. apply StronglySorted_rev. intros x y; lia. Qed.

(** On integers the descending sort is the ascending one reversed. *)
Lemma sorted_reverse (l : list Z) : sorted l true = rev (sorted l false).
Proof.
  rewrite <- (rev_involutive (sorted l true)). f_equal.
  apply ascending_unique.
  - apply descending_rev, sorted_descending.
  - apply sorted_ascending.
  - rewrite <- Permutation_rev, !sorted_perm. apply Permutation_refl.
Qed.

End Sorting.

(** ** The [sstf] loop *)

Section Sstf.

(** [min] returns the first element of least key: everything before
    it has a strictly larger key, nothing after it a smaller one. *)
Lemma min_from_split (key : Z -> Z) (l : list Z) : forall best,
  exists pre post,
    best :: l = pre ++ min_from key best l :: post
    /\ Forall (fun r => key (min_from key best l) < key r) pre
    /\ Forall (fun r => key (min_from key best l) <= key r) post.
Proof.
  induction l as [| x l IH]; intros best; simpl.
  - exists [], []. repeat split; constructor.
  - destruct (Z.ltb_spec (key x) (key best)) as [Hlt | Hge].
    + destruct (IH x) as (pre & post & Heq & Hpre & Hpost).
      remember (min_from key x l) as m eqn:Hm. clear Hm IH.
      exists (best :: pre), post. repeat split.
      * simpl. f_equal. exact Heq.
      * constructor; [| exact Hpre].
        destruct pre as [| p pre]; simpl in Heq; injection Heq as Hx Hl.
        -- subst m. exact Hlt.
        -- subst p. inversion Hpre; subst. lia.
      * exact Hpost.
    + destruct (IH best) as (pre & post & Heq & Hpre & Hpost).
      remember (min_from key best l) as m eqn:Hm. clear Hm IH.
      destruct pre as [| p pre]; simpl in Heq; injection Heq as Hb Hl.
      * exists [], (x :: post). subst. repeat split.
        -- constructor.
        -- constructor; assumption.
      * exists (p :: x :: pre), post. subst. repeat split.
        -- inversion Hpre; subst. repeat constructor; try assumption. lia.
        -- exact Hpost.
Qed.

Lemma remove_split (pre post : list Z) (x : Z) :
  Forall (fun r => r <> x) pre ->
  remove (pre ++ x :: post) x = Ok (pre ++ post).
Proof.
  induction 1 as [| a pre Ha Hpre IH]; simpl.
  - rewrite Z.eqb_refl. reflexivity.
  - destruct (Z.eqb_spec a x) as [-> | _]; [contradiction |].
    rewrite IH. reflexivity.
Qed.

(** One iteration on a non-empty queue: it never raises, it visits
    the first closest request and takes exactly that one out. *)
Lemma sstf_body_step (r : Z) (rs : list Z) (head : Z) :
  exists pre c post,
    r :: rs = pre ++ c :: post
    /\ Forall (fun x => dist head c < dist head x) pre
    /\ Forall (fun x => dist head c <= dist head x) post
    /\ forall sq t,
        sstf_body (mk_sstf (r :: rs) head sq t)
        = Ok (mk_sstf (pre ++ post) c (sq ++ [c]) (t + Z.abs (head - c))).
Proof.
  destruct (min_from_split (fun x => Z.abs (x - head)) rs r)
    as (pre & post & Heq & Hpre & Hpost).
  unfold sstf_body. cbn [st_requests st_head st_seek_sequence st_total_seek].
  unfold Py.min.
  remember (min_from (fun x => Z.abs (x - head)) r rs) as c eqn:Hc.
  exists pre, c, post. repeat split; try assumption.
  intros sq t. cbn [bind]. rewrite Heq, remove_split; [reflexivity |].
  eapply Forall_impl; [| exact Hpre].
  intros a Ha ->. lia.
Qed.

Lemma split_length (r c : Z) (rs pre post : list Z) :
  r :: rs = pre ++ c :: post -> length (pre ++ post) = length rs.
Proof.
  intros Heq. apply (f_equal (@length Z)) in Heq.
  rewrite length_app in *. simpl in Heq. lia.
Qed.

Lemma sstf_while_nil (fuel : nat) (head : Z) (sq : list Z) (t : Z) :
  sstf_while fuel (mk_sstf [] head sq t) = Ok (mk_sstf [] head sq t).
Proof. destruct fuel; reflexivity. Qed.

(** With a budget below the queue length the loop is still running. *)
Lemma sstf_while_short : forall fuel rs head sq t,
  (fuel < length rs)%nat ->
  sstf_while fuel (mk_sstf rs head sq t) = OutOfFuel.
Proof.
  induction fuel as [| fuel IH]; intros [| r rs] head sq t Hlt;
    simpl in Hlt; try lia.
  - reflexivity.
  - destruct (sstf_body_step r rs head)
      as (pre & c & post & Heq & _ & _ & Hbody).
    cbn [sstf_while st_requests]. rewrite Hbody. cbn [bind].
    apply IH. rewrite (split_length _ _ _ _ _ Heq). lia.
Qed.

(** With a budget of at least the queue length the loop exits; the
    visits it appends and the cost it adds depend on the queue and the
    head only. *)
Lemma sstf_while_run : forall n rs head,
  length rs = n ->
  exists vis last,
    Permutation vis rs
    /\ forall sq t fuel,
        (n <= fuel)%nat ->
        sstf_while fuel (mk_sstf rs head sq t)
        = Ok (mk_sstf [] last (sq ++ vis) (t + steps_cost (head :: vis))).
Proof.
  induction n as [| n IH]; intros [| r rs] head Hlen;
    simpl in Hlen; try lia.
  - exists [], head. split; [constructor |].
    intros sq t fuel _. rewrite sstf_while_nil, app_nil_r.
    simpl. rewrite Z.add_0_r. reflexivity.
  - destruct (sstf_body_step r rs head)
      as (pre & c & post & Heq & _ & _ & Hbody).
    assert (length (pre ++ post) = n) as Hlen'
        by (rewrite (split_length _ _ _ _ _ Heq); lia).
    destruct (IH (pre ++ post) c Hlen') as (vis & last & Hperm & Hrun).
    exists (c :: vis), last. split.
    + rewrite Heq. apply Permutation_cons_app. exact Hperm.
    + intros sq t [| fuel] Hfuel; [lia |].
      cbn [sstf_while st_requests]. rewrite Hbody. cbn [bind].
      rewrite Hrun by lia. rewrite <- app_assoc. simpl.
      f_equal. f_equal.
      change (steps_cost (head :: c :: vis))
        with (Z.abs (head - c) + steps_cost (c :: vis)).
      lia.
Qed.

(** [sstf] returns: the head, then a rearrangement of the queue, and
    the cost of that path. *)
Lemma sstf_returns (requests : list Z) (head : Z) :
  exists vis,
    Permutation vis requests
    /\ forall fuel,
        (length requests <= fuel)%nat ->
        sstf_fuel fuel requests head
        = Ok (head :: vis, steps_cost (head :: vis)).
Proof.
  destruct (sstf_while_run (length requests) requests head eq_refl)
    as (vis & last & Hperm & Hrun).
  exists vis. split; [exact Hperm |].
  intros fuel Hfuel. unfold sstf_fuel, sstf_init.
  rewrite Hrun by exact Hfuel. reflexivity.
Qed.

End Sstf.

(** ** The two groups of the sweeping policies *)

Section Sweep.

Variable head : Z.

Lemma filter_geb (requests : list Z) :
  filter (fun r => r >=? head) requests = at_or_above head requests.
Proof. apply filter_ext; intros r. apply Z.geb_leb. Qed.

Lemma filter_ltb (requests : list Z) :
  filter (fun r => r <? head) requests = below head requests.
Proof. apply filter_ext; intros r. apply Z.ltb_antisym. Qed.

Lemma at_or_above_In (requests : list Z) (x : Z) :
  In x (at_or_above head requests) <-> In x requests /\ head <= x.
Proof. unfold at_or_above. rewrite filter_In, Z.leb_le. reflexivity. Qed.

Lemma below_In (requests : list Z) (x : Z) :
  In x (below head requests) <-> In x requests /\ x < head.
Proof.
  unfold below. rewrite filter_In, negb_true_iff, Z.leb_gt. reflexivity.
Qed.

Lemma nth_error_after (pre : list Z) (x : Z) (post : list Z) :
  nth_error (pre ++ x :: post) (length pre) = Some x.
Proof. induction pre as [| a pre IH]; [reflexivity | exact IH]. Qed.

Lemma nth_error_after2 (pre : list Z) (x y : Z) (post : list Z) :
  nth_error (pre ++ x :: y :: post) (S (length pre)) = Some y.
Proof. induction pre as [| a pre IH]; [reflexivity | exact IH]. Qed.

(** The two groups split the queue: nothing lost, nothing repeated. *)
Lemma groups_count (requests : list Z) (x : Z) :
  (count_occ Z.eq_dec (at_or_above head requests) x
   + count_occ Z.eq_dec (below head requests) x
   = count_occ Z.eq_dec requests x)%nat.
Proof.
  unfold at_or_above, below.
  induction requests as [| r requests IH]; [reflexivity |].
  cbn [filter]. destruct (head <=? r); cbn [negb count_occ];
    destruct (Z.eq_dec r x); lia.
Qed.

Lemma all_equal_descending (l : list Z) :
  (forall x y, In x l -> In y l -> x = y) -> StronglySorted Z.ge l.
Proof.
  induction l as [| a l IH]; intros Heq; constructor.
  - apply IH. intros x y Hx Hy. apply Heq; right; assumption.
  - rewrite Forall_forall. intros y Hy.
    rewrite (Heq a y); [lia | left; reflexivity | right; exact Hy].
Qed.

Lemma ascending_descending_equal (l : list Z) :
  StronglySorted Z.le l -> StronglySorted Z.ge l ->
  forall x y, In x l -> In y l -> x = y.
Proof.
  induction 1 as [| a l Hs IH Ha]; intros Hge x y Hx Hy; [destruct Hx |].
  inversion Hge as [| ? ? Hge' Hb]; subst.
  rewrite Forall_forall in Ha, Hb.
  assert (forall z, In z (a :: l) -> z = a) as Hall.
  { intros z [<- | Hz]; [reflexivity |].
    specialize (Ha _ Hz). specialize (Hb _ Hz). lia. }
  rewrite (Hall x Hx), (Hall y Hy). reflexivity.
Qed.

(** An ascending list reads the same backwards exactly when all its
    elements are equal. *)
Lemma ascending_palindrome (l : list Z) :
  StronglySorted Z.le l ->
  (rev l = l <-> forall x y, In x l -> In y l -> x = y).
Proof.
  intros Hle. split.
  - intros Hrev. apply ascending_descending_equal; [exact Hle |].
    rewrite <- Hrev. apply ascending_rev. exact Hle.
  - intros Heq. apply ascending_unique; [| exact Hle |].
    + apply descending_rev, all_equal_descending, Heq.
    + apply Permutation_sym, Permutation_rev.
Qed.

End Sweep.

(** ** The dispatcher on the six names *)

Section Dispatch.

Variables (queue : list Z) (head : Z).

Lemma get_result_FCFS :
  get_result "FCFS" queue head = Ok (Some (fcfs queue head)).
Proof. reflexivity. Qed.

Lemma get_result_SSTF :
  get_result "SSTF" queue head = r <- sstf queue head ;; Ok (Some r).
Proof. reflexivity. Qed.

Lemma get_result_SCAN :
  get_result "SCAN" queue head
  = Ok (Some (scan queue head default_max_cylinder)).
Proof. reflexivity. Qed.

Lemma get_result_CSCAN :
  get_result "CSCAN" queue head
  = Ok (Some (cscan queue head default_max_cylinder)).
Proof. reflexivity. Qed.

Lemma get_result_LOOK :
  get_result "LOOK" queue head = Ok (Some (look queue head)).
Proof. reflexivity. Qed.

Lemma get_result_CLOOK :
  get_result "CLOOK" queue head = Ok (Some (clook queue head)).
Proof. reflexivity. Qed.

(** Any other name runs through the whole chain and falls off its end. *)
Lemma get_result_other (algo : string) :
  ~ In algo algorithms -> get_result algo queue head = Ok None.
Proof.
  intros Hnot. unfold get_result.
  repeat match goal with
         | |- context [String.eqb algo ?name] =>
             destruct (String.eqb_spec algo name) as [-> | _];
             [exfalso; apply Hnot; simpl; tauto |]
         end.
  reflexivity.
Qed.

End Dispatch.

Lemma sstf_eq (requests : list Z) (head : Z) :
  exists vis,
    Permutation vis requests
    /\ sstf requests head = Ok (head :: vis, steps_cost (head :: vis)).
Proof.
  destruct (sstf_returns requests head) as (vis & Hperm & Hrun).
  exists vis. split; [exact Hperm |]. apply Hrun. apply Nat.le_refl.
Qed.

(** ** Reading the explanation back *)

Section Reading.

Lemma string_append_assoc (s t u : string) :
  ((s ++ t) ++ u)%string = (s ++ (t ++ u))%string.
Proof.
  induction s as [| c s IH]; [reflexivity |].
  simpl. rewrite IH. reflexivity.
Qed.

Lemma strip_prefix_app (prefix s : string) :
  strip_prefix prefix (prefix ++ s)%string = Some s.
Proof.
  induction prefix as [| c prefix IH]; [reflexivity |].
  simpl. rewrite Ascii.eqb_refl. exact IH.
Qed.

(** [str] loses nothing: the number is read back from its text. *)
Lemma read_int_str (z : Z) : read_int (str z) = Some z.
Proof.
  unfold read_int, str.
  rewrite NilZero.isi.
  - cbn [option_map]. f_equal. apply DecimalZ.of_to.
  - destruct z as [| q | q]; cbn; try discriminate.
    intros [= Habs]. exact (DecimalPos.Unsigned.to_uint_nonnil q Habs).
  - destruct z as [| q | q]; cbn; try discriminate.
    intros [= Habs]. exact (DecimalPos.Unsigned.to_uint_nonnil q Habs).
Qed.

Lemma read_step_line (path : list Z) (i : nat) (d : Z) :
  read_step path i (step_line path i d) = Some d.
Proof.
  unfold read_step, step_line.
  replace ("|" ++ str (item path (i + 1)) ++ " - " ++ str (item path i)
               ++ "| = " ++ str d)%string
    with (("|" ++ str (item path (i + 1)) ++ " - " ++ str (item path i)
               ++ "| = ") ++ str d)%string.
  - rewrite strip_prefix_app. apply read_int_str.
  - rewrite !string_append_assoc. reflexivity.
Qed.

Lemma read_steps_lines (path : list Z) (f : nat -> Z) (n : nat) :
  forall k,
    read_steps path k (map (fun i => step_line path i (f i)) (seq k n))
    = map (fun i => Some (f i)) (seq k n).
Proof.
  induction n as [| n IH]; intros k; [reflexivity |].
  cbn [seq map read_steps]. rewrite read_step_line, IH. reflexivity.
Qed.

Lemma sum_read_shown (f : nat -> Z) (l : list nat) :
  sum_read (map (fun i => Some (f i)) l) = Some (sum (map f l)).
Proof.
  induction l as [| i l IH]; [reflexivity |].
  cbn [map sum_read]. rewrite IH, sum_cons. reflexivity.
Qed.

End Reading.

Lemma totals_agree_steps (path : list Z) :
  totals_agree (path, steps_cost path).
Proof.
  unfold totals_agree; cbn [fst snd].
  split; [apply explanation_total |].
  split; [apply recorded_diffs_sum |].
  split; [apply get_seek_explanation_total |].
  split; [| split].
  - rewrite explanation_lines_length. unfold recorded_diffs, range.
    rewrite length_map, length_seq. reflexivity.
  - rewrite explanation_loop_eq. cbn [fst]. unfold range.
    rewrite read_steps_lines, sum_read_shown. f_equal.
    apply recorded_diffs_sum.
  - rewrite get_seek_explanation_total. unfold read_total.
    replace ("Steps:" ++ nl ++ join nl (fst (explanation_loop path))
                      ++ nl ++ nl ++ "Total Seek Time = "
                      ++ str (steps_cost path))%string
      with (("Steps:" ++ nl ++ join nl (fst (explanation_loop path))
                      ++ nl ++ nl ++ "Total Seek Time = ")
              ++ str (steps_cost path))%string.
    + rewrite strip_prefix_app. apply read_int_str.
    + rewrite !string_append_assoc. reflexivity.
Qed.

(** ** The properties *)

(** C8. For FCFS the visits after the head are the queue exactly as it
    was submitted, with the cost of that path; on the queue
    98,183,37,122,14,124,65,67 with the head at 53 the sequence is
    53,98,183,37,122,14,124,65,67 and the total is 640. *)
Theorem fcfs_keeps_order (requests : list Z) (head : Z) :
  fst (fcfs requests head) = head :: requests
  /\ visits (fst (fcfs requests head)) = requests
  /\ snd (fcfs requests head) = steps_cost (head :: requests)
  /\ fcfs example_queue 53 = ([53; 98; 183; 37; 122; 14; 124; 65; 67], 640)
  /\ get_result "FCFS" example_queue 53
     = Ok (Some ([53; 98; 183; 37; 122; 14; 124; 65; 67], 640)).
Proof.
  repeat split.
  unfold fcfs; cbn [snd]. apply seek_sum_steps.
Qed.

(** C9. Whatever the queue, the head and the cylinder count, each of
    the six policies returns a sequence that is not empty and whose
    first element is the head it was given. *)
Theorem sequence_starts_at_head
        (algo : string) (queue : list Z) (head max_cylinder : Z) :
  In algo algorithms ->
  (exists rest total,
      get_result algo queue head = Ok (Some (head :: rest, total)))
  /\ hd_error (fst (scan queue head max_cylinder)) = Some head
  /\ hd_error (fst (cscan queue head max_cylinder)) = Some head.
Proof.
  intros Hin. split; [| split; reflexivity].
  simpl in Hin.
  destruct Hin as [<- | [<- | [<- | [<- | [<- | [<- | []]]]]]].
  - rewrite get_result_FCFS. eexists _, _. reflexivity.
  - rewrite get_result_SSTF.
    destruct (sstf_eq queue head) as (vis & _ & ->).
    eexists _, _. reflexivity.
  - rewrite get_result_SCAN. eexists _, _. reflexivity.
  - rewrite get_result_CSCAN. eexists _, _. reflexivity.
  - rewrite get_result_LOOK. eexists _, _. reflexivity.
  - rewrite get_result_CLOOK. eexists _, _. reflexivity.
Qed.

(** The statement of C9 at SSTF on the queue 98,183,37 with the head at
    53 and 200 cylinders. *)
Lemma sequence_starts_at_head_witness :
  In "SSTF"%string algorithms
  /\ ((exists rest total,
         get_result "SSTF" [98; 183; 37] 53 = Ok (Some (53 :: rest, total)))
      /\ hd_error (fst (scan [98; 183; 37] 53 200)) = Some 53
      /\ hd_error (fst (cscan [98; 183; 37] 53 200)) = Some 53).
Proof.
  assert (In "SSTF"%string algorithms) as Hin by (simpl; tauto).
  split; [exact Hin |].
  exact (sequence_starts_at_head "SSTF" [98; 183; 37] 53 200 Hin).
Defined.

(** C1, as the code has it. On an empty queue FCFS, SSTF, LOOK and
    CLOOK return the sequence [head] and the total 0.  SCAN and CSCAN
    still go to the boundary: SCAN returns [head, max_cylinder - 1] and
    CSCAN [head, max_cylinder - 1, 0], each with the cost of that path
    (through the dispatcher the boundary is 199). *)
Theorem empty_queue_results (head max_cylinder : Z) :
  get_result "FCFS" [] head = Ok (Some ([head], 0))
  /\ get_result "SSTF" [] head = Ok (Some ([head], 0))
  /\ get_result "LOOK" [] head = Ok (Some ([head], 0))
  /\ get_result "CLOOK" [] head = Ok (Some ([head], 0))
  /\ scan [] head max_cylinder
     = ([head; max_cylinder - 1], Z.abs (head - (max_cylinder - 1)))
  /\ cscan [] head max_cylinder
     = ([head; max_cylinder - 1; 0],
        Z.abs (head - (max_cylinder - 1)) + Z.abs (max_cylinder - 1))
  /\ get_result "SCAN" [] head
     = Ok (Some ([head; 199], Z.abs (head - 199)))
  /\ get_result "CSCAN" [] head
     = Ok (Some ([head; 199; 0], Z.abs (head - 199) + 199)).
Proof.
  assert (forall m, scan [] head m = ([head; m - 1], Z.abs (head - (m - 1))))
    as Hscan.
  { intros m. unfold scan. cbn [filter sorted fold_right app].
    rewrite seek_sum_steps. simpl. f_equal. lia. }
  assert (forall m, cscan [] head m
                    = ([head; m - 1; 0],
                       Z.abs (head - (m - 1)) + Z.abs (m - 1))) as Hcscan.
  { intros m. unfold cscan. cbn [filter sorted fold_right app].
    rewrite seek_sum_steps. simpl. f_equal. lia. }
  do 4 (split; [reflexivity |]).
  split; [apply Hscan |].
  split; [apply Hcscan |].
  split.
  - rewrite get_result_SCAN, Hscan. reflexivity.
  - rewrite get_result_CSCAN, Hcscan. reflexivity.
Qed.

(** C1 fails as stated: with an empty queue and the head at 53, SCAN
    returns [53, 199] and the total 146, not [53] and 0. *)
Lemma empty_queue_scan_counterexample :
  get_result "SCAN" [] 53 = Ok (Some ([53; 199], 146))
  /\ get_result "SCAN" [] 53 <> Ok (Some ([53], 0))
  /\ get_result "CSCAN" [] 53 = Ok (Some ([53; 199; 0], 345)).
Proof.
  repeat split. intros H. discriminate H.
Qed.

(** C4, as the code has it. Called with a name that is not one of the
    six, the dispatcher raises no error: no branch of the [if]/[elif]
    chain is taken and the function returns [None]. *)
Theorem get_result_unknown_returns_none
        (algo : string) (queue : list Z) (head : Z) :
  ~ In algo algorithms ->
  get_result algo queue head = Ok None
  /\ forall e, get_result algo queue head <> Raise e.
Proof.
  intros Hnot. rewrite (get_result_other queue head algo Hnot).
  split; [reflexivity |]. intros e Habs. discriminate Habs.
Qed.

(** C4, amended, at the name "FIFO" on the example queue with the head
    at 53. *)
Lemma get_result_unknown_returns_none_witness :
  ~ In "FIFO"%string algorithms
  /\ (get_result "FIFO" example_queue 53 = Ok None
      /\ forall e, get_result "FIFO" example_queue 53 <> Raise e).
Proof.
  assert (~ In "FIFO"%string algorithms) as H.
  { simpl. intros H.
    repeat (destruct H as [H | H]; [discriminate H |]). exact H. }
  split; [exact H |].
  exact (get_result_unknown_returns_none "FIFO" example_queue 53 H).
Defined.

(** C4 fails as stated: "FIFO" is not one of the six names, and the
    dispatcher called with it returns [None]; it does not end in an
    error. *)
Lemma get_result_unknown_counterexample :
  ~ In "FIFO"%string algorithms
  /\ get_result "FIFO" example_queue 53 = Ok None
  /\ get_result "FIFO" example_queue 53 <> Raise ValueError.
Proof.
  split; [| split; [reflexivity | intros Habs; discriminate Habs]].
  simpl. intros H.
  repeat (destruct H as [H | H]; [discriminate H |]).
  exact H.
Qed.

(** C5. For each of the six generators the total it returns is the
    total the explanation loop accumulates over the returned sequence,
    which is the sum of the differences the loop records and the number
    printed after "Total Seek Time = ": the loop records one line per
    step, the differences read back from the recorded lines add up to
    the generator's total, and so does the total read back from the
    end of the text. *)
Theorem total_matches_explanation
        (requests : list Z) (head max_cylinder : Z) :
  totals_agree (fcfs requests head)
  /\ (exists r, sstf requests head = Ok r /\ totals_agree r)
  /\ totals_agree (scan requests head max_cylinder)
  /\ totals_agree (cscan requests head max_cylinder)
  /\ totals_agree (look requests head)
  /\ totals_agree (clook requests head).
Proof.
  assert (forall path, totals_agree (path, seek_sum path)) as Hsum
      by (intros path; rewrite seek_sum_steps; apply totals_agree_steps).
  split; [apply Hsum |].
  split.
  { destruct (sstf_eq requests head) as (vis & _ & Heq).
    eexists. split; [exact Heq |]. apply totals_agree_steps. }
  unfold scan, cscan, look, clook; cbv zeta.
  repeat (split; [apply Hsum |]). apply Hsum.
Qed.

(** C10. The SSTF loop ends on every queue: each iteration on a
    non-empty queue succeeds and leaves one request fewer, a budget of
    len(requests) iterations is enough and no smaller one is, and the
    visits of the returned sequence are a rearrangement of the queue
    (same elements, same multiplicities). *)
Theorem sstf_terminates (requests : list Z) (head : Z) :
  (forall r rs h sq t,
      exists s',
        sstf_body (mk_sstf (r :: rs) h sq t) = Ok s'
        /\ length (st_requests s') = length rs)
  /\ exists seek_sequence total_seek,
      sstf requests head = Ok (seek_sequence, total_seek)
      /\ (forall fuel,
             sstf_fuel fuel requests head
             = if (length requests <=? fuel)%nat
               then Ok (seek_sequence, total_seek)
               else OutOfFuel)
      /\ length seek_sequence = S (length requests)
      /\ Permutation (visits seek_sequence) requests
      /\ (forall x, count_occ Z.eq_dec (visits seek_sequence) x
                    = count_occ Z.eq_dec requests x).
Proof.
  split.
  - intros r rs h sq t.
    destruct (sstf_body_step r rs h) as (pre & c & post & Heq & _ & _ & Hb).
    eexists. split; [apply Hb |].
    cbn [st_requests]. eapply split_length; exact Heq.
  - destruct (sstf_returns requests head) as (vis & Hperm & Hrun).
    exists (head :: vis), (steps_cost (head :: vis)).
    split; [apply Hrun; apply Nat.le_refl |].
    split; [| split; [| split]].
    + intros fuel. destruct (Nat.leb_spec (length requests) fuel) as [H | H].
      * apply Hrun; exact H.
      * unfold sstf_fuel, sstf_init.
        rewrite sstf_while_short by exact H. reflexivity.
    + simpl. f_equal. apply Permutation_length; exact Hperm.
    + exact Hperm.
    + intros x. apply Permutation_count_occ. exact Hperm.
Qed.

(** C2, as the code has it. At every step of SSTF the next visited
    cylinder is a remaining request at the smallest distance from the
    current head, and among several at that distance it is the one
    that comes first in the remaining queue: the queue splits around
    the chosen [c] with everything before it strictly farther and
    nothing after it nearer, and the run goes on from [c] with the
    queue less that one occurrence of [c]. *)
Theorem sstf_picks_first_closest (r : Z) (rs : list Z) (head : Z) :
  exists pre c post rest total,
    r :: rs = pre ++ c :: post
    /\ Forall (fun x => dist head c < dist head x) pre
    /\ Forall (fun x => dist head c <= dist head x) post
    /\ (forall x, In x (r :: rs) -> dist head c <= dist head x)
    /\ sstf (pre ++ post) c = Ok (c :: rest, total)
    /\ sstf (r :: rs) head
       = Ok (head :: c :: rest, Z.abs (head - c) + total).
Proof.
  destruct (sstf_body_step r rs head)
    as (pre & c & post & Heq & Hpre & Hpost & Hbody).
  destruct (sstf_while_run (length (pre ++ post)) (pre ++ post) c eq_refl)
    as (vis & last & _ & Hrun).
  exists pre, c, post, vis, (steps_cost (c :: vis)).
  split; [exact Heq |]. split; [exact Hpre |]. split; [exact Hpost |].
  split; [| split].
  - rewrite Heq. intros x Hx. rewrite Forall_forall in Hpre, Hpost.
    apply in_app_or in Hx. destruct Hx as [Hx | [<- | Hx]].
    + specialize (Hpre _ Hx). lia.
    + lia.
    + apply Hpost, Hx.
  - unfold sstf, sstf_fuel, sstf_init.
    rewrite Hrun by apply Nat.le_refl. reflexivity.
  - unfold sstf, sstf_fuel, sstf_init.
    cbn [length sstf_while st_requests]. rewrite Hbody. cbn [bind].
    rewrite Hrun by (rewrite (split_length _ _ _ _ _ Heq); apply Nat.le_refl).
    reflexivity.
Qed.

(** C2 fails as stated: with the queue [60, 40] and the head at 50 both
    requests are at distance 10 and SSTF visits 60, the larger, first. *)
Lemma sstf_tie_counterexample :
  sstf [60; 40] 50 = Ok ([50; 60; 40], 30)
  /\ dist 50 60 = dist 50 40
  /\ 40 < 60.
Proof. repeat split. Qed.

(** C3, as the code has it. LOOK and CLOOK visit the same ascending
    run of requests at or above the head; then LOOK visits the requests
    below the head in descending order and CLOOK in ascending order, the
    same run reversed.  The two results (sequence and total) are equal
    exactly when all requests below the head have the same value. *)
Theorem look_clook_differ_below (requests : list Z) (head : Z) :
  exists right left,
    Permutation right (at_or_above head requests)
    /\ StronglySorted Z.le right
    /\ Permutation left (below head requests)
    /\ StronglySorted Z.le left
    /\ fst (look requests head) = [head] ++ right ++ rev left
    /\ fst (clook requests head) = [head] ++ right ++ left
    /\ (look requests head = clook requests head
        <-> forall x y, In x requests -> In y requests ->
                        x < head -> y < head -> x = y).
Proof.
  exists (sorted (at_or_above head requests) false),
         (sorted (below head requests) false).
  split; [apply sorted_perm |]. split; [apply sorted_ascending |].
  split; [apply sorted_perm |]. split; [apply sorted_ascending |].
  unfold look, clook; cbv zeta; cbn [fst].
  rewrite filter_geb, filter_ltb, sorted_reverse.
  split; [reflexivity |]. split; [reflexivity |].
  pose proof (ascending_palindrome (sorted (below head requests) false)
                                   (sorted_ascending _)) as Hpal.
  split.
  - intros Heq x y Hx Hy Hxh Hyh.
    apply (f_equal fst) in Heq. cbn [fst] in Heq.
    apply app_inv_head in Heq. apply app_inv_head in Heq.
    apply (proj1 Hpal Heq); apply sorted_In, below_In; split; assumption.
  - intros Hall.
    assert (rev (sorted (below head requests) false)
            = sorted (below head requests) false) as ->; [| reflexivity].
    apply Hpal. intros x y Hx Hy.
    apply sorted_In, below_In in Hx. apply sorted_In, below_In in Hy.
    apply Hall; tauto.
Qed.

(** C3 fails as stated: on the queue 98,183,37,122,14,124,65,67 with the
    head at 53, LOOK ends with 37 then 14 and CLOOK with 14 then 37, and
    the totals are 299 and 322. *)
Lemma look_clook_counterexample :
  look example_queue 53 = ([53; 65; 67; 98; 122; 124; 183; 37; 14], 299)
  /\ clook example_queue 53 = ([53; 65; 67; 98; 122; 124; 183; 14; 37], 322)
  /\ look example_queue 53 <> clook example_queue 53.
Proof.
  repeat split. intros H. discriminate H.
Qed.

(** C6. The SCAN sequence is the head, then the requests at or above
    the head in ascending order, then the top boundary
    [max_cylinder - 1], then the requests below the head in descending
    order.  The boundary sits right after the at-or-above group, and it
    is inserted once: it occurs in the sequence one time more than in
    the head and queue it was given. *)
Theorem scan_sequence (requests : list Z) (head max_cylinder : Z) :
  exists right left,
    fst (scan requests head max_cylinder)
    = [head] ++ right ++ [max_cylinder - 1] ++ left
    /\ Permutation right (at_or_above head requests)
    /\ StronglySorted Z.le right
    /\ Permutation left (below head requests)
    /\ StronglySorted Z.ge left
    /\ nth_error (fst (scan requests head max_cylinder))
                 (1 + length (at_or_above head requests))
       = Some (max_cylinder - 1)
    /\ count_occ Z.eq_dec (fst (scan requests head max_cylinder))
                 (max_cylinder - 1)
       = S (count_occ Z.eq_dec (head :: requests) (max_cylinder - 1)).
Proof.
  exists (sorted (at_or_above head requests) false),
         (sorted (below head requests) true).
  unfold scan; cbv zeta; cbn [fst].
  rewrite filter_geb, filter_ltb.
  split; [reflexivity |].
  split; [apply sorted_perm |]. split; [apply sorted_ascending |].
  split; [apply sorted_perm |]. split; [apply sorted_descending |].
  split.
  - rewrite <- (sorted_length (at_or_above head requests) false).
    apply (nth_error_after (head :: _)).
  - rewrite !count_occ_app.
    rewrite (proj1 (Permutation_count_occ Z.eq_dec _ _)
                   (sorted_perm (at_or_above head requests) false)).
    rewrite (proj1 (Permutation_count_occ Z.eq_dec _ _)
                   (sorted_perm (below head requests) true)).
    pose proof (groups_count head requests (max_cylinder - 1)) as Hsplit.
    cbn [count_occ]. destruct (Z.eq_dec (max_cylinder - 1) (max_cylinder - 1));
      [| contradiction].
    destruct (Z.eq_dec head (max_cylinder - 1)); lia.
Qed.

(** C7. The CSCAN sequence is the head, then the requests at or above
    the head in ascending order, then the top boundary
    [max_cylinder - 1], then at once the bottom boundary 0, then the
    requests below the head in ascending order. *)
Theorem cscan_sequence (requests : list Z) (head max_cylinder : Z) :
  exists right left,
    fst (cscan requests head max_cylinder)
    = [head] ++ right ++ [max_cylinder - 1; 0] ++ left
    /\ Permutation right (at_or_above head requests)
    /\ StronglySorted Z.le right
    /\ Permutation left (below head requests)
    /\ StronglySorted Z.le left
    /\ nth_error (fst (cscan requests head max_cylinder))
                 (1 + length (at_or_above head requests))
       = Some (max_cylinder - 1)
    /\ nth_error (fst (cscan requests head max_cylinder))
                 (2 + length (at_or_above head requests))
       = Some 0.
Proof.
  exists (sorted (at_or_above head requests) false),
         (sorted (below head requests) false).
  unfold cscan; cbv zeta; cbn [fst].
  rewrite filter_geb, filter_ltb.
  split; [reflexivity |].
  split; [apply sorted_perm |]. split; [apply sorted_ascending |].
  split; [apply sorted_perm |]. split; [apply sorted_ascending |].
  split.
  - rewrite <- (sorted_length (at_or_above head requests) false).
    apply (nth_error_after (head :: _)).
  - rewrite <- (sorted_length (at_or_above head requests) false).
    apply (nth_error_after2 (head :: _)).
Qed.

(** ** Costs of paths *)

Section PathCost.

Lemma steps_cost_cons2 (a b : Z) (l : list Z) :
  steps_cost (a :: b :: l) = Z.abs (a - b) + steps_cost (b :: l).
Proof. reflexivity. Qed.

(** A path costs at least the distance from its start to any of its
    points. *)
Lemma steps_cost_reach (l : list Z) : forall a x,
  In x (a :: l) -> Z.abs (a - x) <= steps_cost (a :: l).
Proof.
  induction l as [| b l IH]; intros a x Hx.
  - destruct Hx as [<- | []]. simpl. lia.
  - rewrite steps_cost_cons2. destruct Hx as [<- | Hx].
    + pose proof (steps_cost_nonneg (b :: l)). lia.
    + specialize (IH b x Hx). lia.
Qed.

(** One more stop on the way never shortens a path. *)
Lemma steps_cost_insert (l1 : list Z) (x : Z) (l2 : list Z) :
  steps_cost (l1 ++ l2) <= steps_cost (l1 ++ x :: l2).
Proof.
  induction l1 as [| a [| a' l1] IH].
  - destruct l2 as [| b l2]; [simpl; lia |].
    cbn [app]. rewrite steps_cost_cons2. lia.
  - cbn [app]. rewrite steps_cost_cons2.
    destruct l2 as [| b l2].
    + pose proof (steps_cost_nonneg [x]). simpl. simpl in H. lia.
    + rewrite !steps_cost_cons2. lia.
  - change (steps_cost (a :: (a' :: l1) ++ l2)
            <= steps_cost (a :: (a' :: l1) ++ x :: l2)).
    cbn [app] in *. rewrite !steps_cost_cons2. lia.
Qed.

Lemma last_default (l : list Z) : forall d a c,
  last (d :: l) a = last (d :: l) c.
Proof.
  induction l as [| e l IH]; intros d a c; [reflexivity |].
  change (last (e :: l) a = last (e :: l) c). apply IH.
Qed.

Lemma last_cons (l : list Z) (c a : Z) : last (c :: l) a = last l c.
Proof.
  destruct l as [| d l]; [reflexivity |].
  change (last (d :: l) a = last (d :: l) c). apply last_default.
Qed.

(** Two paths put end to start: the two costs and the jump between. *)
Lemma steps_cost_join (l1 : list Z) : forall a b l2,
  steps_cost ((a :: l1) ++ b :: l2)
  = steps_cost (a :: l1) + Z.abs (last l1 a - b) + steps_cost (b :: l2).
Proof.
  induction l1 as [| c l1 IH]; intros a b l2.
  - cbn [app last]. rewrite steps_cost_cons2. simpl. lia.
  - rewrite last_cons.
    change ((a :: c :: l1) ++ b :: l2) with (a :: (c :: l1) ++ b :: l2).
    change (steps_cost (a :: (c :: l1) ++ b :: l2))
      with (Z.abs (a - c) + steps_cost ((c :: l1) ++ b :: l2)).
    rewrite IH, steps_cost_cons2. lia.
Qed.

(** A path that only climbs costs its rise; one that only descends,
    its drop. *)
Lemma ascending_cost (l : list Z) : forall a,
  StronglySorted Z.le (a :: l) -> steps_cost (a :: l) = last l a - a.
Proof.
  induction l as [| b l IH]; intros a Hs.
  - simpl. lia.
  - inversion Hs as [| ? ? Hs' Ha]; subst.
    inversion Ha as [| ? ? Hab _]; subst.
    rewrite steps_cost_cons2, (IH b Hs'), last_cons. lia.
Qed.

Lemma descending_cost (l : list Z) : forall a,
  StronglySorted Z.ge (a :: l) -> steps_cost (a :: l) = a - last l a.
Proof.
  induction l as [| b l IH]; intros a Hs.
  - simpl. lia.
  - inversion Hs as [| ? ? Hs' Ha]; subst.
    inversion Ha as [| ? ? Hab _]; subst.
    rewrite steps_cost_cons2, (IH b Hs'), last_cons. lia.
Qed.

(** The end of a climbing path is its highest point, the end of a
    descending one its lowest. *)
Lemma ascending_last (l : list Z) : forall a,
  StronglySorted Z.le (a :: l) ->
  In (last l a) (a :: l) /\ Forall (fun x => x <= last l a) (a :: l).
Proof.
  induction l as [| b l IH]; intros a Hs.
  - split; [left; reflexivity | repeat constructor; simpl; lia].
  - inversion Hs as [| ? ? Hs' Ha]; subst.
    inversion Ha as [| ? ? Hab _]; subst.
    rewrite last_cons. destruct (IH b Hs') as [Hin Hall].
    split; [right; exact Hin |].
    constructor; [| exact Hall].
    inversion Hall; subst. lia.
Qed.

Lemma descending_last (l : list Z) : forall a,
  StronglySorted Z.ge (a :: l) ->
  In (last l a) (a :: l) /\ Forall (fun x => last l a <= x) (a :: l).
Proof.
  induction l as [| b l IH]; intros a Hs.
  - split; [left; reflexivity | repeat constructor; simpl; lia].
  - inversion Hs as [| ? ? Hs' Ha]; subst.
    inversion Ha as [| ? ? Hab _]; subst.
    rewrite last_cons. destruct (IH b Hs') as [Hin Hall].
    split; [right; exact Hin |].
    constructor; [| exact Hall].
    inversion Hall; subst. lia.
Qed.

(** [highest] and [lowest] are the greatest and the least of the head
    and the queue, and nothing else is. *)
Lemma highest_spec (head : Z) (requests : list Z) :
  In (highest head requests) (head :: requests)
  /\ Forall (fun x => x <= highest head requests) (head :: requests).
Proof.
  unfold highest. induction requests as [| r requests IH]; cbn [fold_right].
  - split; [left; reflexivity | repeat constructor; lia].
  - destruct IH as [Hin Hall]. inversion Hall as [| ? ? Hh Hall']; subst.
    split.
    + destruct (Z.max_spec r (fold_right Z.max head requests))
        as [[_ ->] | [_ ->]].
      * destruct Hin as [<- | Hin]; [left; reflexivity | right; right; exact Hin].
      * right; left; reflexivity.
    + constructor; [lia |]. constructor; [lia |].
      eapply Forall_impl; [| exact Hall']. intros x Hx; simpl in Hx; lia.
Qed.

Lemma lowest_spec (head : Z) (requests : list Z) :
  In (lowest head requests) (head :: requests)
  /\ Forall (fun x => lowest head requests <= x) (head :: requests).
Proof.
  unfold lowest. induction requests as [| r requests IH]; cbn [fold_right].
  - split; [left; reflexivity | repeat constructor; lia].
  - destruct IH as [Hin Hall]. inversion Hall as [| ? ? Hh Hall']; subst.
    split.
    + destruct (Z.min_spec r (fold_right Z.min head requests))
        as [[_ ->] | [_ ->]].
      * right; left; reflexivity.
      * destruct Hin as [<- | Hin]; [left; reflexivity | right; right; exact Hin].
    + constructor; [lia |]. constructor; [lia |].
      eapply Forall_impl; [| exact Hall']. intros x Hx; simpl in Hx; lia.
Qed.

Lemma greatest_unique (l : list Z) (m m' : Z) :
  In m l -> Forall (fun x => x <= m) l ->
  In m' l -> Forall (fun x => x <= m') l -> m = m'.
Proof.
  rewrite !Forall_forall. intros Hm Hall Hm' Hall'.
  specialize (Hall _ Hm'). specialize (Hall' _ Hm). lia.
Qed.

Lemma least_unique (l : list Z) (m m' : Z) :
  In m l -> Forall (fun x => m <= x) l ->
  In m' l -> Forall (fun x => m' <= x) l -> m = m'.
Proof.
  rewrite !Forall_forall. intros Hm Hall Hm' Hall'.
  specialize (Hall _ Hm'). specialize (Hall' _ Hm). lia.
Qed.

End PathCost.

(** ** The groups of the sweeping policies, sorted *)

Section Groups.

Variables (head : Z) (requests : list Z).

Let right := sorted (at_or_above head requests) false.

Lemma groups_perm :
  Permutation (at_or_above head requests ++ below head requests) requests.
Proof.
  unfold at_or_above, below.
  induction requests as [| r l IH]; [constructor |].
  cbn [filter]. destruct (head <=? r); cbn [negb app].
  - apply perm_skip, IH.
  - apply Permutation_sym, Permutation_cons_app, Permutation_sym, IH.
Qed.

Lemma right_above : Forall (fun x => head <= x) right.
Proof.
  rewrite Forall_forall. intros x Hx.
  apply sorted_In, at_or_above_In in Hx. tauto.
Qed.

Lemma head_right_ascending : StronglySorted Z.le (head :: right).
Proof. constructor; [apply sorted_ascending | apply right_above]. Qed.

Lemma right_top : last right head = highest head requests.
Proof.
  destruct (ascending_last right head head_right_ascending) as [Hin Hall].
  destruct (highest_spec head requests) as [Hin' Hall'].
  apply (greatest_unique (head :: requests)); try assumption.
  - destruct Hin as [<- | Hin]; [left; reflexivity |].
    right. apply sorted_In, at_or_above_In in Hin. tauto.
  - rewrite Forall_forall in *. intros x [<- | Hx].
    + apply Hall. left; reflexivity.
    + destruct (Z.le_gt_cases head x) as [Hle | Hgt].
      * apply Hall. right. apply sorted_In, at_or_above_In. tauto.
      * specialize (Hall head (or_introl eq_refl)). lia.
Qed.

Lemma head_le_highest : head <= highest head requests.
Proof.
  destruct (highest_spec head requests) as [_ Hall].
  inversion Hall; subst. assumption.
Qed.

Lemma lowest_le_head : lowest head requests <= head.
Proof.
  destruct (lowest_spec head requests) as [_ Hall].
  inversion Hall; subst. assumption.
Qed.

(** The lowest cylinder is below the head exactly when some request is. *)
Lemma below_nil_lowest :
  below head requests = [] -> lowest head requests = head.
Proof.
  intros Hnil. destruct (lowest_spec head requests) as [Hin _].
  destruct Hin as [<- | Hin]; [reflexivity |].
  pose proof lowest_le_head as Hle.
  destruct (Z.eq_dec (lowest head requests) head) as [| Hne];
    [assumption |].
  assert (In (lowest head requests) (below head requests)) as Habs
      by (apply below_In; split; [exact Hin | lia]).
  rewrite Hnil in Habs. destruct Habs.
Qed.

Lemma below_In_lowest (b : Z) :
  In b (below head requests) ->
  lowest head requests < head
  /\ In (lowest head requests) (below head requests).
Proof.
  intros Hb. apply below_In in Hb. destruct Hb as [Hb Hlt].
  destruct (lowest_spec head requests) as [Hin Hall].
  rewrite Forall_forall in Hall.
  assert (lowest head requests <= b) by (apply Hall; right; exact Hb).
  assert (lowest head requests < head) as Hlow by lia.
  split; [exact Hlow |].
  destruct Hin as [Heq | Hin]; [lia |].
  apply below_In. tauto.
Qed.

(** The descending run of the requests below the head ends at the
    lowest cylinder. *)
Lemma left_descending_bottom (b : Z) (l : list Z) :
  sorted (below head requests) true = b :: l ->
  b < head
  /\ StronglySorted Z.ge (b :: l)
  /\ last l b = lowest head requests
  /\ lowest head requests < head.
Proof.
  intros Heq.
  assert (forall x, In x (b :: l) <-> In x (below head requests)) as Hmem
      by (intros x; rewrite <- Heq; apply sorted_In).
  assert (StronglySorted Z.ge (b :: l)) as Hs
      by (rewrite <- Heq; apply sorted_descending).
  destruct (below_In_lowest b) as [Hlow Hlin];
    [apply Hmem; left; reflexivity |].
  destruct (descending_last l b Hs) as [Hin Hall].
  destruct (lowest_spec head requests) as [_ Hall'].
  rewrite Forall_forall in Hall, Hall'.
  assert (In b (below head requests)) as Hb by (apply Hmem; left; reflexivity).
  apply below_In in Hb.
  repeat split; try tauto.
  apply Hmem in Hlin. apply Hmem, below_In in Hin.
  specialize (Hall _ Hlin).
  specialize (Hall' (last l b) (or_intror (proj1 Hin))). lia.
Qed.

(** The ascending run of the requests below the head starts at the
    lowest cylinder and ends at the highest of them. *)
Lemma left_ascending_ends (b : Z) (l : list Z) :
  sorted (below head requests) false = b :: l ->
  b = lowest head requests
  /\ b < head
  /\ StronglySorted Z.le (b :: l)
  /\ last l b = highest (lowest head requests) (below head requests).
Proof.
  intros Heq.
  assert (forall x, In x (b :: l) <-> In x (below head requests)) as Hmem
      by (intros x; rewrite <- Heq; apply sorted_In).
  assert (StronglySorted Z.le (b :: l)) as Hs
      by (rewrite <- Heq; apply sorted_ascending).
  destruct (below_In_lowest b) as [Hlow Hlin];
    [apply Hmem; left; reflexivity |].
  assert (b = lowest head requests) as Hb.
  { inversion Hs as [| ? ? _ Hall]; subst. rewrite Forall_forall in Hall.
    destruct (lowest_spec head requests) as [_ Hall'].
    rewrite Forall_forall in Hall'.
    assert (In b (below head requests)) as Hbin
        by (apply Hmem; left; reflexivity).
    apply below_In in Hbin.
    specialize (Hall' b (or_intror (proj1 Hbin))).
    apply Hmem in Hlin. destruct Hlin as [Hlin | Hlin]; [lia |].
    specialize (Hall _ Hlin). lia. }
  split; [exact Hb |]. split; [lia |]. split; [exact Hs |].
  destruct (ascending_last l b Hs) as [Hin Hall].
  destruct (highest_spec (lowest head requests) (below head requests))
    as [Hin' Hall'].
  rewrite Forall_forall in Hall, Hall'.
  assert (last l b <= highest (lowest head requests) (below head requests)).
  { apply Hall'. right. apply Hmem. exact Hin. }
  assert (highest (lowest head requests) (below head requests) <= last l b).
  { apply Hall. destruct Hin' as [Heq' | Hin'].
    - rewrite <- Heq', <- Hb. left; reflexivity.
    - apply Hmem. exact Hin'. }
  lia.
Qed.

Lemma sorted_nil_inv (l : list Z) (reverse : bool) :
  sorted l reverse = [] -> l = [].
Proof.
  intros Heq. apply (f_equal (@length Z)) in Heq.
  rewrite sorted_length in Heq. destruct l; [reflexivity | discriminate].
Qed.

End Groups.

(** ** Further properties of the generators *)

Lemma Permutation_filter_Z (f : Z -> bool) (l l' : list Z) :
  Permutation l l' -> Permutation (filter f l) (filter f l').
Proof.
  induction 1 as [| x l l' _ IH | x y l | l l' l'' _ IH1 _ IH2].
  - constructor.
  - cbn [filter]. destruct (f x); [apply perm_skip |]; exact IH.
  - cbn [filter]. destruct (f x), (f y);
      try apply Permutation_refl. apply perm_swap.
  - eapply Permutation_trans; eassumption.
Qed.

Lemma sorted_perm_eq (l l' : list Z) (reverse : bool) :
  Permutation l l' -> sorted l reverse = sorted l' reverse.
Proof.
  intros Hp.
  assert (sorted l false = sorted l' false) as Hasc.
  { apply ascending_unique; try apply sorted_ascending.
    rewrite !sorted_perm. exact Hp. }
  destruct reverse; [| exact Hasc].
  rewrite !sorted_reverse, Hasc. reflexivity.
Qed.

Lemma sweep_perms (requests : list Z) (head max_cylinder : Z) :
  Permutation (tl (fst (scan requests head max_cylinder)))
              ((max_cylinder - 1) :: requests)
  /\ Permutation (tl (fst (cscan requests head max_cylinder)))
                 ((max_cylinder - 1) :: 0 :: requests)
  /\ Permutation (tl (fst (look requests head))) requests
  /\ Permutation (tl (fst (clook requests head))) requests.
Proof.
  pose proof (groups_perm head requests) as Hg.
  assert (forall b1 b2,
             Permutation (sorted (at_or_above head requests) b1
                          ++ sorted (below head requests) b2) requests) as Hrl.
  { intros b1 b2. rewrite !sorted_perm. exact Hg. }
  unfold scan, cscan, look, clook; cbv zeta; cbn [fst app tl].
  rewrite !filter_geb, !filter_ltb.
  split; [| split; [| split]].
  - apply Permutation_sym, Permutation_cons_app, Permutation_sym, Hrl.
  - apply Permutation_sym, Permutation_cons_app.
    apply Permutation_cons_app, Permutation_sym, Hrl.
  - apply Hrl.
  - apply Hrl.
Qed.

(** X1. What the sweeping policies visit: SCAN visits the requests and
    its top boundary, CSCAN the requests, the top boundary and 0, LOOK
    and CLOOK the requests and nothing else; each request is visited as
    often as it was submitted.  So the sequences have len(requests) + 2,
    + 3, + 1 and + 1 elements. *)
Theorem sweep_visits (requests : list Z) (head max_cylinder : Z) :
  Permutation (visits (fst (scan requests head max_cylinder)))
              ((max_cylinder - 1) :: requests)
  /\ Permutation (visits (fst (cscan requests head max_cylinder)))
                 ((max_cylinder - 1) :: 0 :: requests)
  /\ Permutation (visits (fst (look requests head))) requests
  /\ Permutation (visits (fst (clook requests head))) requests
  /\ length (fst (scan requests head max_cylinder)) = (length requests + 2)%nat
  /\ length (fst (cscan requests head max_cylinder)) = (length requests + 3)%nat
  /\ length (fst (look requests head)) = (length requests + 1)%nat
  /\ length (fst (clook requests head)) = (length requests + 1)%nat.
Proof.
  destruct (sweep_perms requests head max_cylinder)
    as (Hscan & Hcscan & Hlook & Hclook).
  unfold visits.
  repeat (split; [assumption |]).
  apply Permutation_length in Hscan, Hcscan, Hlook, Hclook.
  unfold scan, cscan, look, clook in *; cbv zeta in *;
    cbn [fst app tl length] in *.
  repeat split; lia.
Qed.

(** X2. The sweeping policies do not depend on the order of the queue:
    two queues holding the same requests (each as often) give the same
    sequence and the same total under SCAN, CSCAN, LOOK and CLOOK. *)
Theorem sweep_order_insensitive
        (requests requests' : list Z) (head max_cylinder : Z) :
  Permutation requests requests' ->
  scan requests head max_cylinder = scan requests' head max_cylinder
  /\ cscan requests head max_cylinder = cscan requests' head max_cylinder
  /\ look requests head = look requests' head
  /\ clook requests head = clook requests' head.
Proof.
  intros Hp.
  assert (forall f b, sorted (filter f requests) b
                      = sorted (filter f requests') b) as Heq
      by (intros f b; apply sorted_perm_eq, Permutation_filter_Z, Hp).
  unfold scan, cscan, look, clook; cbv zeta.
  rewrite !Heq. repeat split.
Qed.

(** X2 at the queues 98,37,122 and 122,98,37 with the head at 53. *)
Lemma sweep_order_insensitive_witness :
  Permutation [98; 37; 122] [122; 98; 37]
  /\ (scan [98; 37; 122] 53 200 = scan [122; 98; 37] 53 200
      /\ cscan [98; 37; 122] 53 200 = cscan [122; 98; 37] 53 200
      /\ look [98; 37; 122] 53 = look [122; 98; 37] 53
      /\ clook [98; 37; 122] 53 = clook [122; 98; 37] 53).
Proof.
  assert (Permutation [98; 37; 122] [122; 98; 37]) as Hp.
  { apply Permutation_sym.
    apply (Permutation_cons_app [98; 37] [] 122). apply Permutation_refl. }
  split; [exact Hp |].
  exact (sweep_order_insensitive [98; 37; 122] [122; 98; 37] 53 200 Hp).
Defined.

Lemma reaches_all_steps (head : Z) (vis requests : list Z) :
  (forall r, In r requests -> In r vis) ->
  reaches_all head requests (steps_cost (head :: vis)).
Proof.
  intros Hsub. split; [apply steps_cost_nonneg |].
  rewrite Forall_forall. intros r Hr.
  apply steps_cost_reach. right. apply Hsub, Hr.
Qed.

(** X3. Under every policy the total is not negative and is at least
    the distance from the head to the farthest request: no request is
    cheaper to serve than going straight to it. *)
Theorem total_reaches_every_request
        (requests : list Z) (head max_cylinder : Z) :
  reaches_all head requests (snd (fcfs requests head))
  /\ (exists r, sstf requests head = Ok r
                /\ reaches_all head requests (snd r))
  /\ reaches_all head requests (snd (scan requests head max_cylinder))
  /\ reaches_all head requests (snd (cscan requests head max_cylinder))
  /\ reaches_all head requests (snd (look requests head))
  /\ reaches_all head requests (snd (clook requests head)).
Proof.
  destruct (sweep_perms requests head max_cylinder)
    as (Hscan & Hcscan & Hlook & Hclook).
  assert (forall vis extra,
             Permutation vis (extra ++ requests) ->
             reaches_all head requests (steps_cost (head :: vis))) as Hreach.
  { intros vis extra Hperm. apply reaches_all_steps. intros r Hr.
    eapply Permutation_in; [apply Permutation_sym; exact Hperm |].
    apply in_or_app. right. exact Hr. }
  split.
  { unfold fcfs; cbv zeta; cbn [snd app]. rewrite seek_sum_steps.
    apply (Hreach requests []). apply Permutation_refl. }
  split.
  { destruct (sstf_eq requests head) as (vis & Hperm & Heq).
    eexists. split; [exact Heq |]. cbn [snd].
    apply (Hreach vis []). exact Hperm. }
  unfold scan, cscan, look, clook in *; cbv zeta in *;
    cbn [fst snd app tl] in *.
  rewrite !seek_sum_steps.
  split; [apply (Hreach _ [max_cylinder - 1]); exact Hscan |].
  split; [apply (Hreach _ [max_cylinder - 1; 0]); exact Hcscan |].
  split; [apply (Hreach _ []); exact Hlook |].
  apply (Hreach _ []); exact Hclook.
Qed.

(** X4. The totals of LOOK and CLOOK in closed form.  With [hi] and
    [lo] the highest and lowest cylinder among the head and the
    requests: LOOK costs [hi - head], plus [hi - lo] when some request
    is below the head; CLOOK costs that and, moreover, the span of the
    requests below the head.  So LOOK never costs more than CLOOK. *)
Theorem look_clook_totals (requests : list Z) (head : Z) :
  let hi := highest head requests in
  let lo := lowest head requests in
  snd (look requests head)
  = (hi - head) + (if lo <? head then hi - lo else 0)
  /\ snd (clook requests head)
     = (hi - head)
       + (if lo <? head
          then (hi - lo) + (highest lo (below head requests) - lo)
          else 0)
  /\ snd (look requests head) <= snd (clook requests head).
Proof.
  cbv zeta.
  pose proof (head_le_highest head requests) as Hhi.
  pose proof (head_right_ascending head requests) as Hup.
  assert (snd (look requests head)
          = (highest head requests - head)
            + (if lowest head requests <? head
               then highest head requests - lowest head requests else 0))
    as Hlook.
  { unfold look; cbv zeta; cbn [snd app].
    rewrite seek_sum_steps, filter_geb, filter_ltb.
    destruct (sorted (below head requests) true) as [| b l] eqn:Hleft.
    - rewrite app_nil_r, (ascending_cost _ _ Hup), right_top.
      apply sorted_nil_inv in Hleft.
      rewrite (below_nil_lowest _ _ Hleft), Z.ltb_irrefl. lia.
    - destruct (left_descending_bottom _ _ b l Hleft)
        as (Hb & Hs & Hlast & Hlow).
      change (steps_cost
                ((head :: sorted (at_or_above head requests) false)
                   ++ b :: l)
              = highest head requests - head
                + (if lowest head requests <? head
                   then highest head requests - lowest head requests
                   else 0)).
      rewrite steps_cost_join, (ascending_cost _ _ Hup), right_top.
      rewrite (descending_cost _ _ Hs), Hlast.
      destruct (Z.ltb_spec (lowest head requests) head); lia. }
  assert (snd (clook requests head)
          = (highest head requests - head)
            + (if lowest head requests <? head
               then (highest head requests - lowest head requests)
                    + (highest (lowest head requests) (below head requests)
                       - lowest head requests)
               else 0)) as Hclook.
  { unfold clook; cbv zeta; cbn [snd app].
    rewrite seek_sum_steps, filter_geb, filter_ltb.
    destruct (sorted (below head requests) false) as [| b l] eqn:Hleft.
    - rewrite app_nil_r, (ascending_cost _ _ Hup), right_top.
      apply sorted_nil_inv in Hleft.
      rewrite (below_nil_lowest _ _ Hleft), Z.ltb_irrefl. lia.
    - destruct (left_ascending_ends _ _ b l Hleft)
        as (Hb & Hlt & Hs & Hlast).
      change (steps_cost
                ((head :: sorted (at_or_above head requests) false)
                   ++ b :: l)
              = highest head requests - head
                + (if lowest head requests <? head
                   then highest head requests - lowest head requests
                        + (highest (lowest head requests)
                                   (below head requests)
                           - lowest head requests)
                   else 0)).
      rewrite steps_cost_join, (ascending_cost _ _ Hup), right_top.
      rewrite (ascending_cost _ _ Hs), Hlast, <- Hb.
      destruct (Z.ltb_spec b head); lia. }
  split; [exact Hlook |]. split; [exact Hclook |].
  rewrite Hlook, Hclook.
  pose proof (head_le_highest (lowest head requests) (below head requests)).
  destruct (lowest head requests <? head); lia.
Qed.

(** X5. The total of SCAN when the head and the requests are not above
    the top boundary: the way up to the boundary, [max_cylinder - 1 -
    head], plus the way down from it to the lowest request when some
    request is below the head. *)
Theorem scan_total_on_disk (requests : list Z) (head max_cylinder : Z) :
  highest head requests <= max_cylinder - 1 ->
  snd (scan requests head max_cylinder)
  = (max_cylinder - 1 - head)
    + (if lowest head requests <? head
       then max_cylinder - 1 - lowest head requests
       else 0).
Proof.
  intros Htop.
  pose proof (head_le_highest head requests) as Hhi.
  pose proof (head_right_ascending head requests) as Hup.
  unfold scan; cbv zeta; cbn [snd app].
  rewrite seek_sum_steps, filter_geb, filter_ltb.
  change (steps_cost
            ((head :: sorted (at_or_above head requests) false)
               ++ (max_cylinder - 1) :: sorted (below head requests) true)
          = max_cylinder - 1 - head
            + (if lowest head requests <? head
               then max_cylinder - 1 - lowest head requests
               else 0)).
  rewrite steps_cost_join, (ascending_cost _ _ Hup), right_top.
  destruct (sorted (below head requests) true) as [| b l] eqn:Hleft.
  - apply sorted_nil_inv in Hleft.
    rewrite (below_nil_lowest _ _ Hleft), Z.ltb_irrefl. simpl. lia.
  - destruct (left_descending_bottom _ _ b l Hleft)
      as (Hb & Hs & Hlast & Hlow).
    rewrite descending_cost.
    + rewrite last_cons, Hlast.
      destruct (Z.ltb_spec (lowest head requests) head); lia.
    + constructor; [exact Hs |].
      destruct (descending_last l b Hs) as [_ Hall].
      constructor; [lia |].
      inversion Hs as [| ? ? _ Hbl]; subst.
      eapply Forall_impl; [| exact Hbl]. intros x Hx; simpl in Hx; lia.
Qed.

(** X5 at the queue 98,183,37,122,14,124,65,67 with the head at 53 and
    200 cylinders: 146 up and 185 down. *)
Lemma scan_total_on_disk_witness :
  highest 53 example_queue <= 200 - 1
  /\ snd (scan example_queue 53 200)
     = (200 - 1 - 53)
       + (if lowest 53 example_queue <? 53
          then 200 - 1 - lowest 53 example_queue
          else 0).
Proof.
  assert (highest 53 example_queue <= 200 - 1) as H
      by (vm_compute; discriminate).
  split; [exact H |].
  exact (scan_total_on_disk example_queue 53 200 H).
Defined.

(** X6. The total of CSCAN when the head and the requests lie between 0
    and the top boundary: up to the boundary, across the whole disk to
    0, then up to the highest request below the head (if any). *)
Theorem cscan_total_on_disk (requests : list Z) (head max_cylinder : Z) :
  0 <= lowest head requests ->
  highest head requests <= max_cylinder - 1 ->
  snd (cscan requests head max_cylinder)
  = (max_cylinder - 1 - head) + (max_cylinder - 1)
    + highest 0 (below head requests).
Proof.
  intros Hbot Htop.
  pose proof (head_le_highest head requests) as Hhi.
  pose proof (lowest_le_head head requests) as Hlo.
  pose proof (head_right_ascending head requests) as Hup.
  unfold cscan; cbv zeta; cbn [snd app].
  rewrite seek_sum_steps, filter_geb, filter_ltb.
  change (steps_cost
            ((head :: sorted (at_or_above head requests) false)
               ++ (max_cylinder - 1)
               :: 0 :: sorted (below head requests) false)
          = max_cylinder - 1 - head + (max_cylinder - 1)
            + highest 0 (below head requests)).
  rewrite steps_cost_join, (ascending_cost _ _ Hup), right_top.
  rewrite steps_cost_cons2.
  assert (StronglySorted Z.le (0 :: sorted (below head requests) false))
    as Hs.
  { constructor; [apply sorted_ascending |].
    rewrite Forall_forall. intros x Hx.
    apply sorted_In, below_In in Hx.
    destruct (lowest_spec head requests) as [_ Hall].
    rewrite Forall_forall in Hall.
    specialize (Hall x (or_intror (proj1 Hx))). lia. }
  rewrite (ascending_cost _ _ Hs).
  assert (last (sorted (below head requests) false) 0
          = highest 0 (below head requests)) as ->.
  { destruct (ascending_last _ _ Hs) as [Hin Hall].
    destruct (highest_spec 0 (below head requests)) as [Hin' Hall'].
    apply (greatest_unique (0 :: below head requests)); try assumption.
    - destruct Hin as [<- | Hin]; [left; reflexivity |].
      right. apply sorted_In in Hin. exact Hin.
    - rewrite Forall_forall in *. intros x [<- | Hx].
      + apply Hall. left; reflexivity.
      + apply Hall. right. apply sorted_In. exact Hx. }
  lia.
Qed.

(** X6 at the queue 98,183,37,122,14,124,65,67 with the head at 53 and
    200 cylinders: 146 up, 199 across, 37 up again. *)
Lemma cscan_total_on_disk_witness :
  0 <= lowest 53 example_queue
  /\ highest 53 example_queue <= 200 - 1
  /\ snd (cscan example_queue 53 200)
     = (200 - 1 - 53) + (200 - 1) + highest 0 (below 53 example_queue).
Proof.
  assert (0 <= lowest 53 example_queue) as Hlo
      by (vm_compute; discriminate).
  assert (highest 53 example_queue <= 200 - 1) as Hhi
      by (vm_compute; discriminate).
  split; [exact Hlo |]. split; [exact Hhi |].
  exact (cscan_total_on_disk example_queue 53 200 Hlo Hhi).
Defined.

(** X7. Going to the boundaries is never free: on every queue, for
    every head and boundary, LOOK costs at most what SCAN costs and
    CLOOK at most what CSCAN costs. *)
Theorem boundaries_cost (requests : list Z) (head max_cylinder : Z) :
  snd (look requests head) <= snd (scan requests head max_cylinder)
  /\ snd (clook requests head) <= snd (cscan requests head max_cylinder).
Proof.
  unfold look, clook, scan, cscan; cbv zeta; cbn [snd app].
  rewrite !seek_sum_steps. split.
  - apply (steps_cost_insert (head :: _)).
  - eapply Z.le_trans.
    + apply (steps_cost_insert (head :: _) 0).
    + apply (steps_cost_insert (head :: _) (max_cylinder - 1)).
Qed.

(** X8. Cylinders stay on the disk: when the head and every request lie
    in [0, max_cylinder), so does every element of the sequence each of
    the six policies returns, the boundaries SCAN and CSCAN add
    included. *)
Theorem sequences_stay_on_disk
        (requests : list Z) (head max_cylinder : Z) :
  on_disk max_cylinder head ->
  Forall (on_disk max_cylinder) requests ->
  Forall (on_disk max_cylinder) (fst (fcfs requests head))
  /\ (exists r, sstf requests head = Ok r
                /\ Forall (on_disk max_cylinder) (fst r))
  /\ Forall (on_disk max_cylinder) (fst (scan requests head max_cylinder))
  /\ Forall (on_disk max_cylinder) (fst (cscan requests head max_cylinder))
  /\ Forall (on_disk max_cylinder) (fst (look requests head))
  /\ Forall (on_disk max_cylinder) (fst (clook requests head)).
Proof.
  intros Hhead Hreq.
  assert (forall vis extra,
             Forall (on_disk max_cylinder) extra ->
             Permutation vis (extra ++ requests) ->
             Forall (on_disk max_cylinder) (head :: vis)) as Hkeep.
  { intros vis extra Hextra Hperm. constructor; [exact Hhead |].
    rewrite Forall_forall in *. intros x Hx.
    apply (Permutation_in _ Hperm) in Hx.
    apply in_app_or in Hx. destruct Hx; auto. }
  assert (on_disk max_cylinder (max_cylinder - 1)) as Htop
      by (unfold on_disk in *; lia).
  assert (on_disk max_cylinder 0) as Hzero
      by (unfold on_disk in *; lia).
  destruct (sweep_perms requests head max_cylinder)
    as (Hscan & Hcscan & Hlook & Hclook).
  split.
  { unfold fcfs; cbv zeta; cbn [fst app].
    apply (Hkeep requests []); [constructor | apply Permutation_refl]. }
  split.
  { destruct (sstf_eq requests head) as (vis & Hperm & Heq).
    eexists. split; [exact Heq |].
    apply (Hkeep vis []); [constructor | exact Hperm]. }
  unfold scan, cscan, look, clook in *; cbv zeta in *;
    cbn [fst app tl] in *.
  split; [apply (Hkeep _ [max_cylinder - 1]);
          [constructor; [exact Htop | constructor] | exact Hscan] |].
  split; [apply (Hkeep _ [max_cylinder - 1; 0]);
          [constructor; [exact Htop |];
           constructor; [exact Hzero | constructor]
          | exact Hcscan] |].
  split; [apply (Hkeep _ []); [constructor | exact Hlook] |].
  apply (Hkeep _ []); [constructor | exact Hclook].
Qed.

(** X8 at the queue 98,183,37 with the head at 53 and 200 cylinders. *)
Lemma sequences_stay_on_disk_witness :
  on_disk 200 53
  /\ Forall (on_disk 200) [98; 183; 37]
  /\ (Forall (on_disk 200) (fst (fcfs [98; 183; 37] 53))
      /\ (exists r, sstf [98; 183; 37] 53 = Ok r
                    /\ Forall (on_disk 200) (fst r))
      /\ Forall (on_disk 200) (fst (scan [98; 183; 37] 53 200))
      /\ Forall (on_disk 200) (fst (cscan [98; 183; 37] 53 200))
      /\ Forall (on_disk 200) (fst (look [98; 183; 37] 53))
      /\ Forall (on_disk 200) (fst (clook [98; 183; 37] 53))).
Proof.
  assert (on_disk 200 53) as Hh by (unfold on_disk; lia).
  assert (Forall (on_disk 200) [98; 183; 37]) as Hr
      by (repeat constructor; unfold on_disk; lia).
  split; [exact Hh |]. split; [exact Hr |].
  exact (sequences_stay_on_disk [98; 183; 37] 53 200 Hh Hr).
Defined.

(** ** Further properties of the dispatcher and the explanation *)

Lemma get_result_known (algo : string) (queue : list Z) (head : Z) :
  In algo algorithms ->
  exists rest total,
    get_result algo queue head = Ok (Some (head :: rest, total)).
Proof.
  intros Hin. simpl in Hin.
  destruct Hin as [<- | [<- | [<- | [<- | [<- | [<- | []]]]]]].
  - rewrite get_result_FCFS. eexists _, _. reflexivity.
  - rewrite get_result_SSTF.
    destruct (sstf_eq queue head) as (vis & _ & ->).
    eexists _, _. reflexivity.
  - rewrite get_result_SCAN. eexists _, _. reflexivity.
  - rewrite get_result_CSCAN. eexists _, _. reflexivity.
  - rewrite get_result_LOOK. eexists _, _. reflexivity.
  - rewrite get_result_CLOOK. eexists _, _. reflexivity.
Qed.

(** X9. The dispatcher never raises and never hangs: for every name,
    queue and head it returns a value, and that value is [None] exactly
    when the name is not one of the six options (names are compared
    exactly, so "fcfs" in lower case is not FCFS). *)
Theorem get_result_total (algo : string) (queue : list Z) (head : Z) :
  exists v,
    get_result algo queue head = Ok v
    /\ (v = None <-> ~ In algo algorithms)
    /\ get_result "fcfs" queue head = Ok None.
Proof.
  destruct (in_dec string_dec algo algorithms) as [Hin | Hnot].
  - destruct (get_result_known algo queue head Hin) as (rest & total & Heq).
    eexists. split; [exact Heq |]. split; [| reflexivity].
    split; [discriminate | intros Hnot; contradiction].
  - exists None. split; [apply get_result_other; exact Hnot |].
    split; [| reflexivity]. split; [intros _; exact Hnot | reflexivity].
Qed.

(** X10. The explanation has one line per move, in the order of the
    path: line [i] reads "|b - a| = d" for the move from [a], the
    [i]-th element of the path, to [b], the next one, with [d] the
    distance between them.  A path of at most one element gives no line
    and the total 0. *)
Theorem explanation_lines (path : list Z) :
  length (fst (explanation_loop path)) = (length path - 1)%nat
  /\ (forall i a b,
         nth_error path i = Some a ->
         nth_error path (S i) = Some b ->
         nth_error (fst (explanation_loop path)) i
         = Some ("|" ++ str b ++ " - " ++ str a ++ "| = "
                     ++ str (Z.abs (b - a)))%string)
  /\ ((length path <= 1)%nat ->
      get_seek_explanation path
      = ("Steps:" ++ nl ++ nl ++ nl ++ "Total Seek Time = 0")%string).
Proof.
  rewrite explanation_loop_eq. cbn [fst]. unfold range.
  split; [rewrite length_map, length_seq; reflexivity |].
  split.
  - intros i a b Ha Hb.
    assert (S i < length path)%nat as Hlt
        by (apply nth_error_Some; rewrite Hb; discriminate).
    rewrite nth_error_map, nth_error_seq.
    destruct (Nat.ltb_spec i (length path - 1)) as [_ | Hge]; [| lia].
    cbn [option_map Nat.add]. f_equal. unfold step_line, item.
    rewrite Nat.add_1_r.
    rewrite (nth_error_nth _ _ 0 Ha), (nth_error_nth _ _ 0 Hb).
    reflexivity.
  - intros Hshort.
    destruct path as [| a [| b path]]; [reflexivity | reflexivity |].
    simpl in Hshort. lia.
Qed.

(** ** SSTF with all requests on one side of the head *)

Section OneSided.

Lemma sstf_unfold (r : Z) (rs : list Z) (head : Z) :
  exists pre c post rest total,
    r :: rs = pre ++ c :: post
    /\ (forall x, In x (r :: rs) -> dist head c <= dist head x)
    /\ sstf (pre ++ post) c = Ok (c :: rest, total)
    /\ sstf (r :: rs) head
       = Ok (head :: c :: rest, Z.abs (head - c) + total).
Proof.
  destruct (sstf_body_step r rs head)
    as (pre & c & post & Heq & Hpre & Hpost & Hbody).
  destruct (sstf_while_run (length (pre ++ post)) (pre ++ post) c eq_refl)
    as (vis & last & _ & Hrun).
  exists pre, c, post, vis, (steps_cost (c :: vis)).
  split; [exact Heq |]. split; [| split].
  - rewrite Heq. intros x Hx. rewrite Forall_forall in Hpre, Hpost.
    apply in_app_or in Hx. destruct Hx as [Hx | [<- | Hx]].
    + specialize (Hpre _ Hx). lia.
    + lia.
    + apply Hpost, Hx.
  - unfold sstf, sstf_fuel, sstf_init.
    rewrite Hrun by apply Nat.le_refl. reflexivity.
  - unfold sstf, sstf_fuel, sstf_init.
    cbn [length sstf_while st_requests]. rewrite Hbody. cbn [bind].
    rewrite Hrun by (rewrite (split_length _ _ _ _ _ Heq); apply Nat.le_refl).
    reflexivity.
Qed.

(** SSTF visits in the order [R] when the closest request is always a
    least one for [R]: here [R] is [<=] with the requests at or above
    the head, or [>=] with the requests at or below it. *)
Lemma sstf_monotone (R : Z -> Z -> Prop) :
  (forall h c x, R h c -> R h x -> dist h c <= dist h x -> R c x) ->
  forall n rs head,
    length rs = n ->
    Forall (R head) rs ->
    exists vis,
      sstf rs head = Ok (head :: vis, steps_cost (head :: vis))
      /\ Permutation vis rs
      /\ StronglySorted R vis.
Proof.
  intros Hclosest. induction n as [| n IH]; intros [| r rs] head Hlen Hall;
    simpl in Hlen; try lia.
  - exists []. repeat split; constructor.
  - destruct (sstf_unfold r rs head)
      as (pre & c & post & rest & total & Heq & Hmin & Hrest & Hrun).
    rewrite Forall_forall in Hall.
    assert (In c (r :: rs)) as Hc
        by (rewrite Heq; apply in_or_app; right; left; reflexivity).
    assert (forall x, In x (pre ++ post) -> In x (r :: rs)) as Hsub.
    { intros x Hx. rewrite Heq. apply in_or_app.
      apply in_app_or in Hx. destruct Hx; [left | right; right]; assumption. }
    assert (Forall (R c) (pre ++ post)) as Hall'.
    { rewrite Forall_forall. intros x Hx. apply Hsub in Hx.
      apply (Hclosest head); auto. }
    destruct (IH (pre ++ post) c) as (vis & Hvis & Hperm & Hsorted);
      [rewrite (split_length _ _ _ _ _ Heq); lia | exact Hall' |].
    rewrite Hvis in Hrest. injection Hrest as <- <-.
    exists (c :: vis). split; [| split].
    + rewrite Hrun, (steps_cost_cons2 head c vis). reflexivity.
    + rewrite Heq. apply Permutation_cons_app. exact Hperm.
    + constructor; [exact Hsorted |].
      rewrite Forall_forall in *. intros x Hx. apply Hall'.
      eapply Permutation_in; [exact Hperm | exact Hx].
Qed.

Lemma descending_unique (l1 l2 : list Z) :
  StronglySorted Z.ge l1 -> StronglySorted Z.ge l2 ->
  Permutation l1 l2 -> l1 = l2.
Proof.
  intros H1 H2 Hp.
  rewrite <- (rev_involutive l1), <- (rev_involutive l2). f_equal.
  apply ascending_unique; try (apply descending_rev; assumption).
  rewrite <- !Permutation_rev. exact Hp.
Qed.

Lemma StronglySorted_app (R : Z -> Z -> Prop) (l1 l2 : list Z) :
  StronglySorted R l1 -> StronglySorted R l2 ->
  (forall x y, In x l1 -> In y l2 -> R x y) ->
  StronglySorted R (l1 ++ l2).
Proof.
  induction 1 as [| a l1 Hs IH Ha]; intros H2 Hcross; [exact H2 |].
  cbn [app]. constructor.
  - apply IH; [exact H2 |]. intros x y Hx Hy. apply Hcross; [right |]; auto.
  - apply Forall_app. split; [exact Ha |].
    rewrite Forall_forall. intros y Hy. apply Hcross; [left |]; auto.
Qed.

Lemma all_above_groups (head : Z) (requests : list Z) :
  Forall (fun r => head <= r) requests ->
  at_or_above head requests = requests.
Proof.
  unfold at_or_above. induction 1 as [| r l Hr _ IH]; [reflexivity |].
  cbn [filter]. destruct (Z.leb_spec head r) as [_ | Hlt]; [| lia].
  f_equal. exact IH.
Qed.

Lemma all_above_below (head : Z) (requests : list Z) :
  Forall (fun r => head <= r) requests ->
  below head requests = [].
Proof.
  unfold below. induction 1 as [| r l Hr _ IH]; [reflexivity |].
  cbn [filter]. destruct (Z.leb_spec head r) as [_ | Hlt]; [| lia].
  exact IH.
Qed.

End OneSided.

(** X11. When all requests lie on one side of the head (all at or above
    it, or all at or below it), SSTF returns exactly what LOOK returns,
    sequence and total: the nearest request is then always the next one
    in the direction of the sweep. *)
Theorem sstf_one_sided_is_look (requests : list Z) (head : Z) :
  Forall (fun r => head <= r) requests
  \/ Forall (fun r => r <= head) requests ->
  sstf requests head = Ok (look requests head).
Proof.
  intros Hside.
  assert (forall vis,
             Permutation vis requests ->
             vis = tl (fst (look requests head)) ->
             Ok (head :: vis, steps_cost (head :: vis))
             = Ok (look requests head)) as Hsame.
  { intros vis _ ->. unfold look; cbv zeta; cbn [fst app tl].
    rewrite seek_sum_steps. reflexivity. }
  destruct (sweep_perms requests head 0) as (_ & _ & Hlook & _).
  unfold look in Hlook at 1; cbv zeta in Hlook; cbn [fst app tl] in Hlook.
  destruct Hside as [Hup | Hdown].
  - destruct (sstf_monotone Z.le) with (n := length requests)
      (rs := requests) (head := head)
      as (vis & Heq & Hperm & Hsorted); try assumption; try reflexivity.
    { unfold dist. intros h c x Hc Hx Hd. lia. }
    rewrite Heq. apply Hsame; [exact Hperm |].
    unfold look; cbv zeta; cbn [fst app tl].
    rewrite filter_geb, filter_ltb.
    rewrite (all_above_groups _ _ Hup), (all_above_below _ _ Hup).
    cbn [sorted fold_right]. rewrite app_nil_r.
    apply ascending_unique; [exact Hsorted | apply sorted_ascending |].
    rewrite sorted_perm. exact Hperm.
  - destruct (sstf_monotone Z.ge) with (n := length requests)
      (rs := requests) (head := head)
      as (vis & Heq & Hperm & Hsorted); try reflexivity.
    { unfold dist. intros h c x Hc Hx Hd. lia. }
    { eapply Forall_impl; [| exact Hdown]. intros x Hx; simpl in Hx; lia. }
    rewrite Heq. apply Hsame; [exact Hperm |].
    unfold look; cbv zeta; cbn [fst app tl].
    apply descending_unique; [exact Hsorted | |].
    + rewrite filter_geb, filter_ltb. apply StronglySorted_app.
      * apply all_equal_descending. rewrite Forall_forall in Hdown.
        intros x y Hx Hy.
        apply sorted_In, at_or_above_In in Hx.
        apply sorted_In, at_or_above_In in Hy.
        pose proof (Hdown x (proj1 Hx)). pose proof (Hdown y (proj1 Hy)).
        lia.
      * apply sorted_descending.
      * intros x y Hx Hy.
        apply sorted_In, at_or_above_In in Hx.
        apply sorted_In, below_In in Hy. lia.
    + rewrite Hperm. apply Permutation_sym. exact Hlook.
Qed.

(** X11 at the queue 98,183,65 with the head at 53. *)
Lemma sstf_one_sided_is_look_witness :
  (Forall (fun r => 53 <= r) [98; 183; 65]
   \/ Forall (fun r => r <= 53) [98; 183; 65])
  /\ sstf [98; 183; 65] 53 = Ok (look [98; 183; 65] 53).
Proof.
  assert (Forall (fun r => 53 <= r) [98; 183; 65]
          \/ Forall (fun r => r <= 53) [98; 183; 65]) as H
      by (left; repeat constructor; lia).
  split; [exact H |].
  exact (sstf_one_sided_is_look [98; 183; 65] 53 H).
Defined.

(** ** The plot *)

Section Plot.

Lemma max_from_spec (l : list Z) : forall best,
  In (max_from best l) (best :: l)
  /\ Forall (fun x => x <= max_from best l) (best :: l).
Proof.
  induction l as [| x l IH]; intros best; cbn [max_from].
  - split; [left; reflexivity | repeat constructor; lia].
  - rewrite Z.gtb_ltb. destruct (Z.ltb_spec best x) as [Hlt | Hge].
    + destruct (IH x) as [Hin Hall]. split; [right; exact Hin |].
      inversion Hall; subst. constructor; [lia | assumption].
    + destruct (IH best) as [Hin Hall]. split.
      * destruct Hin as [Hin | Hin]; [left | right; right]; assumption.
      * inversion Hall; subst. constructor; [assumption |].
        constructor; [lia | assumption].
Qed.

Lemma min_from_id_spec (l : list Z) (best : Z) :
  In (min_from (fun x => x) best l) (best :: l)
  /\ Forall (fun x => min_from (fun x => x) best l <= x) (best :: l).
Proof.
  destruct (min_from_split (fun x => x) l best)
    as (pre & post & Heq & Hpre & Hpost).
  remember (min_from (fun x => x) best l) as m eqn:Hm. clear Hm.
  rewrite Heq. split.
  - apply in_or_app. right. left. reflexivity.
  - apply Forall_app. split.
    + eapply Forall_impl; [| exact Hpre]. intros x Hx; simpl in Hx; lia.
    + constructor; [lia | exact Hpost].
Qed.

End Plot.

(** X12. The limits of the plot.  For a non-empty path (every path a
    policy returns is one) [plot_and_save] computes the limits without
    an exception: x from -1 to len(path) + 1 and y from the lowest
    cylinder of the path less 10 to the highest plus 10, so every point
    [(i, path[i])] lies strictly inside the frame.  On an empty path
    [min] raises [ValueError]. *)
Theorem plot_limits_frame (head : Z) (rest : list Z) :
  exists lo hi,
    plot_limits (head :: rest)
    = Ok ((-1, Z.of_nat (length (head :: rest)) + 1), (lo - 10, hi + 10))
    /\ In lo (head :: rest)
    /\ In hi (head :: rest)
    /\ (forall i c,
           nth_error (head :: rest) i = Some c ->
           -1 < Z.of_nat i < Z.of_nat (length (head :: rest)) + 1
           /\ lo - 10 < c < hi + 10)
    /\ plot_limits [] = Raise ValueError.
Proof.
  destruct (min_from_id_spec rest head) as [Hlo Hlo_all].
  destruct (max_from_spec rest head) as [Hhi Hhi_all].
  exists (min_from (fun x => x) head rest), (max_from head rest).
  split; [reflexivity |]. split; [exact Hlo |]. split; [exact Hhi |].
  split; [| reflexivity].
  intros i c Hc.
  assert (i < length (head :: rest))%nat as Hi
      by (apply nth_error_Some; rewrite Hc; discriminate).
  apply nth_error_In in Hc.
  rewrite Forall_forall in Hlo_all, Hhi_all.
  specialize (Hlo_all _ Hc). specialize (Hhi_all _ Hc). lia.
Qed.

(** X13. The frames of the animation.  There is one frame per element
    of the path, and in frame [i] the x data [range(i + 1)] and the y
    data [path[:i + 1]] have the same length [i + 1], point [j] being
    [(j, path[j])]; the last frame draws the whole path. *)
Theorem animate_frames (path : list Z) (i : nat) :
  In i (frames path) ->
  length (fst (animate path i)) = S i
  /\ length (snd (animate path i)) = S i
  /\ (forall j, (j <= i)%nat ->
                nth_error (fst (animate path i)) j = Some j
                /\ nth_error (snd (animate path i)) j = nth_error path j)
  /\ length (frames path) = length path
  /\ snd (animate path (length path - 1)) = path.
Proof.
  unfold frames, animate, range. rewrite in_seq. intros Hi.
  cbn [fst snd]. rewrite !Nat.add_1_r.
  split; [apply length_seq |].
  split; [rewrite length_firstn; lia |].
  split; [| split].
  - intros j Hj. split.
    + rewrite nth_error_seq.
      destruct (Nat.ltb_spec j (S i)); [reflexivity | lia].
    + rewrite nth_error_firstn.
      destruct (Nat.ltb_spec j (S i)); [reflexivity | lia].
  - apply length_seq.
  - replace (S (length path - 1)) with (length path) by lia.
    apply firstn_all.
Qed.

(** X13 at the path 53,98,37 and its middle frame. *)
Lemma animate_frames_witness :
  In 1%nat (frames [53; 98; 37])
  /\ (length (fst (animate [53; 98; 37] 1)) = 2%nat
      /\ length (snd (animate [53; 98; 37] 1)) = 2%nat
      /\ (forall j, (j <= 1)%nat ->
                    nth_error (fst (animate [53; 98; 37] 1)) j = Some j
                    /\ nth_error (snd (animate [53; 98; 37] 1)) j
                       = nth_error [53; 98; 37] j)
      /\ length (frames [53; 98; 37]) = length [53; 98; 37]
      /\ snd (animate [53; 98; 37] (length [53; 98; 37] - 1))
         = [53; 98; 37]).
Proof.
  assert (In 1%nat (frames [53; 98; 37])) as H by (simpl; tauto).
  split; [exact H |].
  exact (animate_frames [53; 98; 37] 1 H).
Defined.

(** ** The two buttons and the files they leave *)

Section Buttons.

Lemma string_length_append (s t : string) :
  String.length (s ++ t)%string = (String.length s + String.length t)%nat.
Proof. induction s as [| c s IH]; [reflexivity | simpl; rewrite IH; reflexivity]. Qed.

Lemma append_inj_l (t : string) : forall s s' : string,
  (s ++ t)%string = (s' ++ t)%string -> s = s'.
Proof.
  induction s as [| c s IH]; intros [| c' s'] Heq.
  - reflexivity.
  - apply (f_equal String.length) in Heq.
    simpl in Heq. rewrite string_length_append in Heq. lia.
  - apply (f_equal String.length) in Heq.
    simpl in Heq. rewrite string_length_append in Heq. lia.
  - simpl in Heq. injection Heq as -> Heq. f_equal. apply IH. exact Heq.
Qed.

Lemma gif_name_inj (algo algo' : string) :
  gif_name algo = gif_name algo' -> algo = algo'.
Proof. apply append_inj_l. Qed.

Lemma plot_and_save_ok (head : Z) (rest : list Z) (algo : string)
      (fs : files) :
  plot_and_save (head :: rest) algo fs
  = Shown (gif_name algo, write_file (gif_name algo) fs).
Proof. reflexivity. Qed.

Lemma open_written (name : string) (fs : files) :
  open_rb name (write_file name fs) = Shown tt.
Proof. unfold open_rb, write_file. rewrite String.eqb_refl. reflexivity. Qed.

Lemma remove_written (name : string) (fs : files) :
  exists fs',
    os_remove name (write_file name fs) = Shown fs'
    /\ fs' name = false
    /\ forall q, q <> name -> fs' q = fs q.
Proof.
  unfold os_remove, write_file. rewrite String.eqb_refl.
  eexists. split; [reflexivity |]. cbn beta. split.
  - rewrite String.eqb_refl. reflexivity.
  - intros q Hq. apply String.eqb_neq in Hq. rewrite Hq. reflexivity.
Qed.

End Buttons.

(** X14. The Simulate block, for each of the six names: it runs to its
    end, shows the total of the result and the explanation of its
    sequence, and removes the file it saved.  Afterwards no file
    [<algo>_animation.gif] exists (one that was there before is gone
    too) and every other file is as it was. *)
Theorem simulate_block_cleans
        (algo : string) (queue : list Z) (head : Z) (fs : files) :
  In algo algorithms ->
  exists path total fs',
    get_result algo queue head = Ok (Some (path, total))
    /\ simulate_block algo queue head fs
       = Shown (total, get_seek_explanation path, fs')
    /\ fs' (gif_name algo) = false
    /\ forall q, q <> gif_name algo -> fs' q = fs q.
Proof.
  intros Hin.
  destruct (get_result_known algo queue head Hin) as (rest & total & Heq).
  destruct (remove_written (gif_name algo) fs) as (fs' & Hrm & Hgone & Hkept).
  exists (head :: rest), total, fs'.
  split; [exact Heq |]. split; [| split; assumption].
  unfold simulate_block. rewrite Heq.
  cbn [lift ui_bind unpack fst snd]. rewrite plot_and_save_ok.
  cbn [ui_bind fst snd]. rewrite open_written. cbn [ui_bind].
  rewrite Hrm. reflexivity.
Qed.

(** X14 at SCAN on the queue 98,183,37 with the head at 53 and no file
    in the directory. *)
Lemma simulate_block_cleans_witness :
  In "SCAN"%string algorithms
  /\ exists path total fs',
      get_result "SCAN" [98; 183; 37] 53 = Ok (Some (path, total))
      /\ simulate_block "SCAN" [98; 183; 37] 53 (fun _ => false)
         = Shown (total, get_seek_explanation path, fs')
      /\ fs' (gif_name "SCAN") = false
      /\ forall q, q <> gif_name "SCAN" -> fs' q = false.
Proof.
  assert (In "SCAN"%string algorithms) as H by (simpl; tauto).
  split; [exact H |].
  exact (simulate_block_cleans "SCAN" [98; 183; 37] 53 (fun _ => false) H).
Defined.

(** X15. The Compare block with the same algorithm in both boxes (the
    state the page opens in): both animations are saved under one name,
    the first [os.remove] deletes that file and the second raises
    [FileNotFoundError]. *)
Theorem compare_block_same_name
        (algo : string) (queue : list Z) (head : Z) (fs : files) :
  In algo algorithms ->
  compare_block algo algo queue head fs = Failed FileNotFoundError.
Proof.
  intros Hin.
  destruct (get_result_known algo queue head Hin) as (rest & total & Heq).
  unfold compare_block. rewrite Heq.
  cbn [lift ui_bind unpack fst snd]. rewrite plot_and_save_ok.
  cbn [ui_bind fst snd]. rewrite plot_and_save_ok.
  cbn [ui_bind fst snd]. rewrite open_written. cbn [ui_bind].
  destruct (remove_written (gif_name algo)
                           (write_file (gif_name algo) fs))
    as (fs1 & -> & Hgone & _).
  cbn [ui_bind]. unfold os_remove. rewrite Hgone. reflexivity.
Qed.

(** X15 at FCFS in both boxes. *)
Lemma compare_block_same_name_witness :
  In "FCFS"%string algorithms
  /\ compare_block "FCFS" "FCFS" example_queue 53 (fun _ => false)
     = Failed FileNotFoundError.
Proof.
  assert (In "FCFS"%string algorithms) as H by (simpl; tauto).
  split; [exact H |].
  exact (compare_block_same_name "FCFS" example_queue 53 (fun _ => false) H).
Defined.

(** X16. The Compare block with two different names among the six: it
    runs to its end, shows for each column the total of that result and
    the explanation of its sequence, and removes both files it saved;
    every other file is as it was. *)
Theorem compare_block_cleans
        (algo1 algo2 : string) (queue : list Z) (head : Z) (fs : files) :
  In algo1 algorithms ->
  In algo2 algorithms ->
  algo1 <> algo2 ->
  exists path1 total1 path2 total2 fs',
    get_result algo1 queue head = Ok (Some (path1, total1))
    /\ get_result algo2 queue head = Ok (Some (path2, total2))
    /\ compare_block algo1 algo2 queue head fs
       = Shown ((total1, get_seek_explanation path1),
                (total2, get_seek_explanation path2), fs')
    /\ fs' (gif_name algo1) = false
    /\ fs' (gif_name algo2) = false
    /\ forall q, q <> gif_name algo1 -> q <> gif_name algo2 ->
                 fs' q = fs q.
Proof.
  intros Hin1 Hin2 Hne.
  destruct (get_result_known algo1 queue head Hin1) as (rest1 & total1 & Heq1).
  destruct (get_result_known algo2 queue head Hin2) as (rest2 & total2 & Heq2).
  assert (gif_name algo1 <> gif_name algo2) as Hg
      by (intros Habs; apply Hne, gif_name_inj, Habs).
  assert ((gif_name algo1 =? gif_name algo2)%string = false) as H12
      by (apply String.eqb_neq; exact Hg).
  assert ((gif_name algo2 =? gif_name algo1)%string = false) as H21
      by (rewrite String.eqb_sym; exact H12).
  exists (head :: rest1), total1, (head :: rest2), total2.
  eexists. split; [exact Heq1 |]. split; [exact Heq2 |].
  split; [| split; [| split]].
  - unfold compare_block. rewrite Heq1, Heq2.
    cbn [lift ui_bind unpack fst snd]. rewrite plot_and_save_ok.
    cbn [ui_bind fst snd]. rewrite plot_and_save_ok.
    cbn [ui_bind fst snd].
    unfold open_rb, os_remove, write_file.
    rewrite !String.eqb_refl, ?H12, ?H21, ?String.eqb_refl.
    cbn [ui_bind]. rewrite ?H21, ?String.eqb_refl. cbn [ui_bind].
    reflexivity.
  - cbn beta. rewrite H12, String.eqb_refl. reflexivity.
  - cbn beta. rewrite String.eqb_refl. reflexivity.
  - intros q Hq1 Hq2. cbn beta.
    apply String.eqb_neq in Hq1, Hq2. rewrite Hq1, Hq2. reflexivity.
Qed.

(** X16 at FCFS against SSTF on the queue 98,183,37 with the head at 53
    and no file in the directory. *)
Lemma compare_block_cleans_witness :
  In "FCFS"%string algorithms
  /\ In "SSTF"%string algorithms
  /\ "FCFS"%string <> "SSTF"%string
  /\ exists path1 total1 path2 total2 fs',
      get_result "FCFS" [98; 183; 37] 53 = Ok (Some (path1, total1))
      /\ get_result "SSTF" [98; 183; 37] 53 = Ok (Some (path2, total2))
      /\ compare_block "FCFS" "SSTF" [98; 183; 37] 53 (fun _ => false)
         = Shown ((total1, get_seek_explanation path1),
                  (total2, get_seek_explanation path2), fs')
      /\ fs' (gif_name "FCFS") = false
      /\ fs' (gif_name "SSTF") = false
      /\ forall q, q <> gif_name "FCFS" -> q <> gif_name "SSTF" ->
                   fs' q = false.
Proof.
  assert (In "FCFS"%string algorithms) as H1 by (simpl; tauto).
  assert (In "SSTF"%string algorithms) as H2 by (simpl; tauto).
  assert ("FCFS"%string <> "SSTF"%string) as Hne by discriminate.
  split; [exact H1 |]. split; [exact H2 |]. split; [exact Hne |].
  exact (compare_block_cleans "FCFS" "SSTF" [98; 183; 37] 53
                              (fun _ => false) H1 H2 Hne).
Defined.

(** ** A request on the head's own cylinder *)

Lemma right_starts_at_head (head : Z) (requests : list Z) :
  In head requests ->
  exists rest, sorted (at_or_above head requests) false = head :: rest.
Proof.
  intros Hin.
  assert (In head (sorted (at_or_above head requests) false)) as Hin'
      by (apply sorted_In, at_or_above_In; split; [exact Hin | lia]).
  pose proof (sorted_ascending (at_or_above head requests)) as Hs.
  pose proof (right_above head requests) as Hall.
  destruct (sorted (at_or_above head requests) false) as [| a l];
    [destruct Hin' |].
  exists l. f_equal.
  inversion Hall as [| ? ? Ha _]; subst.
  inversion Hs as [| ? ? _ Hal]; subst.
  rewrite Forall_forall in Hal.
  destruct Hin' as [-> | Hin']; [reflexivity |].
  specialize (Hal _ Hin'). lia.
Qed.

(** X18. A request on the cylinder the head is already on is served
    first under SSTF, SCAN, CSCAN, LOOK and CLOOK: the sequence starts
    with the head twice, a move of length 0. *)
Theorem request_at_head_first
        (requests : list Z) (head max_cylinder : Z) :
  In head requests ->
  (exists rest total,
      sstf requests head = Ok (head :: head :: rest, total))
  /\ (exists rest,
         fst (scan requests head max_cylinder) = head :: head :: rest)
  /\ (exists rest,
         fst (cscan requests head max_cylinder) = head :: head :: rest)
  /\ (exists rest, fst (look requests head) = head :: head :: rest)
  /\ (exists rest, fst (clook requests head) = head :: head :: rest).
Proof.
  intros Hin. split.
  - destruct requests as [| r rs]; [destruct Hin |].
    destruct (sstf_unfold r rs head)
      as (pre & c & post & rest & total & _ & Hmin & _ & Hrun).
    specialize (Hmin head Hin). unfold dist in Hmin.
    assert (c = head) as -> by lia.
    eexists _, _. exact Hrun.
  - destruct (right_starts_at_head head requests Hin) as (rest & Hright).
    unfold scan, cscan, look, clook; cbv zeta; cbn [fst app].
    rewrite !filter_geb, Hright. cbn [app].
    repeat split; eexists; reflexivity.
Qed.

(** X18 at the queue 98,53,37 with the head at 53. *)
Lemma request_at_head_first_witness :
  In 53 [98; 53; 37]
  /\ ((exists rest total,
          sstf [98; 53; 37] 53 = Ok (53 :: 53 :: rest, total))
      /\ (exists rest, fst (scan [98; 53; 37] 53 200) = 53 :: 53 :: rest)
      /\ (exists rest, fst (cscan [98; 53; 37] 53 200) = 53 :: 53 :: rest)
      /\ (exists rest, fst (look [98; 53; 37] 53) = 53 :: 53 :: rest)
      /\ (exists rest, fst (clook [98; 53; 37] 53) = 53 :: 53 :: rest)).
Proof.
  assert (In 53 [98; 53; 37]) as H by (simpl; tauto).
  split; [exact H |].
  exact (request_at_head_first [98; 53; 37] 53 200 H).
Defined.
